(** * MidiJack: the Windows MIDI-input plugin and its console client

    A shallow embedding of [MidiJackPlugin.cpp] (the message codec, the
    device registry, the ingestion callback, the message queue and the
    device lifecycle) and of the decoding done by [MidiJackTest.cpp],
    with the properties of the specification stated over it. *)

From Stdlib Require Import ZArith Lia List String Ascii Bool.
From stdpp Require Import base gmap list.

Local Open Scope Z_scope.

(** ** Fixed-width integers

    C++ unsigned integers are modelled as [Z] with the wrap-around of
    each conversion written out. *)

Definition u8 (x : Z) : Z := x mod 2 ^ 8.
Definition u32 (x : Z) : Z := x mod 2 ^ 32.
Definition u64 (x : Z) : Z := x mod 2 ^ 64.

(** [static_cast<int>] of a container size (two's complement wrap). *)
Definition to_int (x : Z) : Z := (x + 2 ^ 31) mod 2 ^ 32 - 2 ^ 31.

(** ** Message codec *)

Module MidiMessage.

(** [class MidiMessage]: [DeviceID source_; uint8_t status_, data1_, data2_]. *)
Record t := Build {
  source_ : Z;
  status_ : Z;
  data1_ : Z;
  data2_ : Z
}.

(** [MidiMessage(DeviceID source, uint32_t rawData)]: the three bytes are
    the truncations of [rawData], [rawData >> 8] and [rawData >> 16]. *)
Definition make (source rawData : Z) : t :=
  {| source_ := source;
     status_ := u8 rawData;
     data1_ := u8 (Z.shiftr rawData 8);
     data2_ := u8 (Z.shiftr rawData 16) |}.

(** [uint64_t Encode64Bit()]. *)
Definition Encode64Bit (m : t) : Z :=
  let ul := u64 (source_ m) in
  let ul := Z.lor ul (u64 (Z.shiftl (u64 (status_ m)) 32)) in
  let ul := Z.lor ul (u64 (Z.shiftl (u64 (data1_ m)) 40)) in
  let ul := Z.lor ul (u64 (Z.shiftl (u64 (data2_ m)) 48)) in
  ul.

(** The fields are within the ranges of their C++ types. *)
Definition in_range (m : t) : Prop :=
  0 <= source_ m < 2 ^ 32 /\ 0 <= status_ m < 2 ^ 8 /\
  0 <= data1_ m < 2 ^ 8 /\ 0 <= data2_ m < 2 ^ 8.

End MidiMessage.

(** The extraction of the four fields in the client's polling loop
    ([MidiJackTest.cpp], [main]). *)
Definition decode_source (msg : Z) : Z := u32 (Z.land (Z.shiftr msg 0) 0xFFFFFFFF).
Definition decode_status (msg : Z) : Z := u8 (Z.land (Z.shiftr msg 32) 0xFF).
Definition decode_data1 (msg : Z) : Z := u8 (Z.land (Z.shiftr msg 40) 0xFF).
Definition decode_data2 (msg : Z) : Z := u8 (Z.land (Z.shiftr msg 48) 0xFF).

Definition decode (msg : Z) : Z * Z * Z * Z :=
  (decode_source msg, decode_status msg, decode_data1 msg, decode_data2 msg).

(** ** The Windows multimedia interface

    [HMIDIIN] handles are modelled by their [uintptr_t] value, [MMRESULT]
    codes by their number.  The constants are those of [mmsystem.h]. *)

Abbreviation DeviceHandle := Z (only parsing).
Abbreviation DeviceID := Z (only parsing).
Abbreviation EndpointID := Z (only parsing).
Abbreviation MMRESULT := Z (only parsing).

Definition MMSYSERR_NOERROR : Z := 0.
Definition MIM_DATA : Z := 0x3C3.

(** The null handle: the value of a value-initialised [HMIDIIN]. *)
Definition NULL : Z := 0.

(** [MIDIINCAPS]; [szPname] is the array of wide characters. *)
Record MIDIINCAPS := {
  wMid : Z;
  wPid : Z;
  vDriverVersion : Z;
  szPname : list Z;
  dwSupport : Z
}.

(** The multimedia calls of the plugin, as transitions of an operating
    system state [OS].  A call that fills an output parameter returns it
    next to its result code. *)
Class WinMM := {
  OS : Type;
  midiInGetNumDevs : OS -> Z * OS;
  midiInOpen : DeviceID -> OS -> (MMRESULT * DeviceHandle) * OS;
  midiInStart : DeviceHandle -> OS -> MMRESULT * OS;
  midiInGetDevCaps : DeviceID -> OS -> (MMRESULT * MIDIINCAPS) * OS;
  midiInClose : DeviceHandle -> OS -> MMRESULT * OS
}.

(** ** [std::list<DeviceHandle>]

    A list is a sequence of nodes; an iterator designates a node (or the
    end), and is invalidated when its node is erased.  Node addresses are
    never issued twice, so an iterator of an erased node stays invalid. *)

Module StdList.

Record node := Node { addr : nat; value : Z }.

Record t := Build { nodes : list node; fresh : nat }.

Inductive iterator := At (a : nat) | End.

Definition new : t := {| nodes := []; fresh := 0 |}.

Definition values (l : t) : list Z := map value (nodes l).

Definition size (l : t) : nat := length (nodes l).

Definition empty (l : t) : bool :=
  match nodes l with [] => true | _ :: _ => false end.

Definition push_back (v : Z) (l : t) : t :=
  {| nodes := nodes l ++ [Node (fresh l) v]; fresh := S (fresh l) |}.

(** [remove(v)] erases every node holding [v]. *)
Definition remove (v : Z) (l : t) : t :=
  {| nodes := filter (fun n => value n <> v) (nodes l); fresh := fresh l |}.

(** [front()]; undefined on an empty list. *)
Definition front (l : t) : option Z :=
  match nodes l with [] => None | n :: _ => Some (value n) end.

Definition first (ns : list node) : iterator :=
  match ns with [] => End | n :: _ => At (addr n) end.

Definition begin (l : t) : iterator := first (nodes l).

(** [*it]: [None] when [it] is the end or designates no node of [l]. *)
Definition deref (it : iterator) (l : t) : option Z :=
  match it with
  | End => None
  | At a => value <$> List.find (fun n => Nat.eqb (addr n) a) (nodes l)
  end.

Fixpoint successor (a : nat) (ns : list node) : option iterator :=
  match ns with
  | [] => None
  | n :: rest => if Nat.eqb (addr n) a then Some (first rest) else successor a rest
  end.

(** [++it]: [None] when [it] is the end or designates no node of [l]. *)
Definition next (it : iterator) (l : t) : option iterator :=
  match it with
  | End => None
  | At a => successor a (nodes l)
  end.

End StdList.

(** ** Results of operations that the C++ standard leaves undefined

    [Undefined] is undefined behaviour of the program (the use of an
    invalidated or past-the-end iterator); [OutOfFuel] is the exhaustion
    of the bound of a modelled loop, and is shown never to occur. *)

Inductive outcome (A : Type) : Type :=
| Returns (a : A)
| Undefined
| OutOfFuel.
Arguments Returns {A} a.
Arguments Undefined {A}.
Arguments OutOfFuel {A}.

(** ** [std::map::operator[]]: a missing key is inserted with a
    value-initialised value. *)
Definition subscript {V : Type} (d : V) (k : Z) (m : gmap Z V) : V * gmap Z V :=
  match m !! k with
  | Some v => (v, m)
  | None => (d, <[k := d]> m)
  end.

(** ** Plugin state *)

Record DeviceInfo := {
  handle : DeviceHandle;
  deviceId : DeviceID;
  endpointId : EndpointID;
  deviceCaps : MIDIINCAPS
}.

Definition MIDIINCAPS_zero : MIDIINCAPS :=
  {| wMid := 0; wPid := 0; vDriverVersion := 0; szPname := []; dwSupport := 0 |}.

(** [DeviceInfo info = {}]. *)
Definition DeviceInfo_zero : DeviceInfo :=
  {| handle := NULL; deviceId := 0; endpointId := 0; deviceCaps := MIDIINCAPS_zero |}.

(** [std::wstring name(szPname)] reads up to the first null character. *)
Fixpoint wstring_of (a : list Z) : list Z :=
  match a with
  | [] => []
  | c :: rest => if c =? 0 then [] else c :: wstring_of rest
  end.

(** [std::string(name.begin(), name.end())] narrows every character. *)
Definition narrow (w : list Z) : string :=
  string_of_list_ascii (map (fun c => ascii_of_N (Z.to_N (u8 c))) w).

(** [c_str()] read as a [const char*]: the characters before the first
    null character. *)
Fixpoint c_str (s : string) : string :=
  match s with
  | EmptyString => EmptyString
  | String c rest => if Ascii.eqb c Ascii.zero then EmptyString else String c (c_str rest)
  end.

Section Plugin.

Context {W : WinMM}.

(** The globals of the anonymous namespace, and the operating system. *)
Record State := {
  handle_to_device_info : gmap Z DeviceInfo;
  endpoint_id_to_handle : gmap Z Z;
  message_queue : list MidiMessage.t;
  active_handles : StdList.t;
  resource_lock : nat;
  os_state : OS
}.

Definition set_info (m : gmap Z DeviceInfo) (st : State) : State :=
  {| handle_to_device_info := m;
     endpoint_id_to_handle := endpoint_id_to_handle st;
     message_queue := message_queue st;
     active_handles := active_handles st;
     resource_lock := resource_lock st;
     os_state := os_state st |}.

Definition set_endpoints (m : gmap Z Z) (st : State) : State :=
  {| handle_to_device_info := handle_to_device_info st;
     endpoint_id_to_handle := m;
     message_queue := message_queue st;
     active_handles := active_handles st;
     resource_lock := resource_lock st;
     os_state := os_state st |}.

Definition set_queue (q : list MidiMessage.t) (st : State) : State :=
  {| handle_to_device_info := handle_to_device_info st;
     endpoint_id_to_handle := endpoint_id_to_handle st;
     message_queue := q;
     active_handles := active_handles st;
     resource_lock := resource_lock st;
     os_state := os_state st |}.

Definition set_active (l : StdList.t) (st : State) : State :=
  {| handle_to_device_info := handle_to_device_info st;
     endpoint_id_to_handle := endpoint_id_to_handle st;
     message_queue := message_queue st;
     active_handles := l;
     resource_lock := resource_lock st;
     os_state := os_state st |}.

Definition set_lock (n : nat) (st : State) : State :=
  {| handle_to_device_info := handle_to_device_info st;
     endpoint_id_to_handle := endpoint_id_to_handle st;
     message_queue := message_queue st;
     active_handles := active_handles st;
     resource_lock := n;
     os_state := os_state st |}.

Definition set_os (o : OS) (st : State) : State :=
  {| handle_to_device_info := handle_to_device_info st;
     endpoint_id_to_handle := endpoint_id_to_handle st;
     message_queue := message_queue st;
     active_handles := active_handles st;
     resource_lock := resource_lock st;
     os_state := o |}.

(** The state of a freshly loaded library over the system state [o]. *)
Definition initial (o : OS) : State :=
  {| handle_to_device_info := ∅;
     endpoint_id_to_handle := ∅;
     message_queue := [];
     active_handles := StdList.new;
     resource_lock := 0;
     os_state := o |}.

(** [resource_lock.lock()] and [unlock()] of the recursive mutex, as the
    ownership count of the running thread. *)
Definition lock (st : State) : State := set_lock (S (resource_lock st)) st.
Definition unlock (st : State) : State := set_lock (Nat.pred (resource_lock st)) st.

(** *** Ingestion callback *)

Definition MidiInProc (hMidiIn wMsg dwInstance dwParam1 dwParam2 : Z)
    (st : State) : State :=
  if wMsg =? MIM_DATA then
    let '(info, m) := subscript DeviceInfo_zero hMidiIn (handle_to_device_info st) in
    let st := set_info m st in
    let id := endpointId info in
    let raw := u32 dwParam1 in
    let st := lock st in
    let st := set_queue (message_queue st ++ [MidiMessage.make id raw]) st in
    unlock st
  else st.

(** *** Registry *)

Definition GetDeviceName (h : DeviceHandle) (st : State) : string :=
  match handle_to_device_info st !! h with
  | Some info => narrow (wstring_of (szPname (deviceCaps info)))
  | None => "unknown"%string
  end.

(** *** Lifecycle *)

Definition OpenDevice (deviceId : Z) (st : State) : State :=
  let '((r, h), o) := midiInOpen deviceId (os_state st) in
  let st := set_os o st in
  if r =? MMSYSERR_NOERROR then
    let '(r, o) := midiInStart h (os_state st) in
    let st := set_os o st in
    if r =? MMSYSERR_NOERROR then
      let eid := u32 (Z.land h 0xFFFFFFFF) in
      let '((r, caps), o) := midiInGetDevCaps deviceId (os_state st) in
      let st := set_os o st in
      if r =? MMSYSERR_NOERROR then
        let info := {| handle := h; deviceId := deviceId;
                       endpointId := eid; deviceCaps := caps |} in
        let st := lock st in
        let st := set_endpoints (<[eid := h]> (endpoint_id_to_handle st)) st in
        let st := set_info (<[h := info]> (handle_to_device_info st)) st in
        let st := set_active (StdList.push_back h (active_handles st)) st in
        unlock st
      else set_os (snd (midiInClose h (os_state st))) st
    else set_os (snd (midiInClose h (os_state st))) st
  else st.

Definition CloseDevice (h : DeviceHandle) (st : State) : State :=
  let st := set_os (snd (midiInClose h (os_state st))) st in
  let st := lock st in
  let st := set_active (StdList.remove h (active_handles st)) st in
  let '(info, m) := subscript DeviceInfo_zero h (handle_to_device_info st) in
  let st := set_info m st in
  let endpoint_id := endpointId info in
  let st := set_endpoints (delete endpoint_id (endpoint_id_to_handle st)) st in
  let st := set_info (delete h (handle_to_device_info st)) st in
  unlock st.

(** The body of the counting loop of [OpenAllDevices] over a run of
    device indices. *)
Definition open_range (ids : list Z) (st : State) : State :=
  foldl (fun st id => OpenDevice id st) st ids.

Definition OpenAllDevices (st : State) : State :=
  let '(n, o) := midiInGetNumDevs (os_state st) in
  let st := set_os o st in
  let device_count := u32 n in
  open_range (seqZ 0 device_count) st.

(** The range-based [for] of [RefreshDevices]:
    [for (it = begin(); it != end(); ++it) { h = *it; CloseDevice(h); }]. *)
Fixpoint close_each (fuel : nat) (it : StdList.iterator) (st : State)
    : outcome State :=
  match it with
  | StdList.End => Returns st
  | StdList.At _ =>
      match fuel with
      | O => OutOfFuel
      | S fuel =>
          match StdList.deref it (active_handles st) with
          | None => Undefined
          | Some h =>
              let st := CloseDevice h st in
              match StdList.next it (active_handles st) with
              | None => Undefined
              | Some it => close_each fuel it st
              end
          end
      end
  end.

Definition RefreshDevices (st : State) : outcome State :=
  let st := lock st in
  match close_each (S (StdList.size (active_handles st)))
                   (StdList.begin (active_handles st)) st with
  | Undefined => Undefined
  | OutOfFuel => OutOfFuel
  | Returns st =>
      let st := OpenAllDevices st in
      Returns (unlock st)
  end.

(** [while (!active_handles.empty()) CloseDevice(active_handles.front())]. *)
Fixpoint close_front (fuel : nat) (st : State) : State :=
  match fuel with
  | O => st
  | S fuel =>
      if StdList.empty (active_handles st) then st
      else
        match StdList.front (active_handles st) with
        | None => st
        | Some h => close_front fuel (CloseDevice h st)
        end
  end.

Definition CloseAllDevices (st : State) : State :=
  let st := lock st in
  let st := close_front (StdList.size (active_handles st)) st in
  unlock st.

(** *** Exported functions *)

Definition MidiJackRefreshEndpoints (st : State) : outcome (Z * State) :=
  match RefreshDevices st with
  | Undefined => Undefined
  | OutOfFuel => OutOfFuel
  | Returns st => Returns (to_int (Z.of_nat (StdList.size (active_handles st))), st)
  end.

Definition MidiJackCountEndpoints (st : State) : Z * State :=
  (to_int (Z.of_nat (StdList.size (active_handles st))), st).

(** [std::advance(itr, index)] from [begin()]. *)
Fixpoint advance (n : nat) (it : StdList.iterator) (l : StdList.t)
    : option StdList.iterator :=
  match n with
  | O => Some it
  | S n =>
      match StdList.next it l with
      | None => None
      | Some it => advance n it l
      end
  end.

Definition MidiJackGetEndpointIDAtIndex (index : Z) (st : State)
    : outcome (Z * State) :=
  if index <? 0 then Undefined
  else
    match advance (Z.to_nat index) (StdList.begin (active_handles st))
                  (active_handles st) with
    | None => Undefined
    | Some itr =>
        match StdList.deref itr (active_handles st) with
        | None => Undefined
        | Some h =>
            let '(info, m) := subscript DeviceInfo_zero h (handle_to_device_info st) in
            Returns (endpointId info, set_info m st)
        end
    end.

Definition MidiJackGetEndpointName (id : Z) (st : State) : string * State :=
  let '(h, m) := subscript NULL id (endpoint_id_to_handle st) in
  let st := set_endpoints m st in
  let buffer := GetDeviceName h st in
  (c_str buffer, st).

Definition MidiJackDequeueIncomingData (st : State) : Z * State :=
  match message_queue st with
  | [] => (0, st)
  | msg :: rest =>
      let st := lock st in
      let st := set_queue rest st in
      let st := unlock st in
      (MidiMessage.Encode64Bit msg, st)
  end.

End Plugin.

Arguments State : clear implicits.

(** ** A scripted operating system

    A table of devices, each with the handle the system hands out for it
    and the result code of each of the three calls made while opening
    it; the state records the handles that are open. *)

Module Script.

Record device := {
  dev_handle : Z;
  dev_open : Z;
  dev_start : Z;
  dev_caps : Z;
  dev_name : list Z
}.

Record sim := { devices : list device; open_handles : list Z }.

Definition MMSYSERR_BADDEVICEID : Z := 2.
Definition MMSYSERR_INVALHANDLE : Z := 5.

Definition device_at (id : Z) (s : sim) : option device :=
  if id <? 0 then None else devices s !! Z.to_nat id.

Definition device_of (h : Z) (s : sim) : option device :=
  List.find (fun d => dev_handle d =? h) (devices s).

Definition caps_of (d : device) : MIDIINCAPS :=
  {| wMid := 1; wPid := 1; vDriverVersion := 1; szPname := dev_name d; dwSupport := 0 |}.

Definition getNumDevs (s : sim) : Z * sim := (Z.of_nat (length (devices s)), s).

Definition open (id : Z) (s : sim) : (Z * Z) * sim :=
  match device_at id s with
  | None => ((MMSYSERR_BADDEVICEID, 0), s)
  | Some d =>
      if dev_open d =? 0
      then ((0, dev_handle d),
            {| devices := devices s; open_handles := open_handles s ++ [dev_handle d] |})
      else ((dev_open d, 0), s)
  end.

Definition start (h : Z) (s : sim) : Z * sim :=
  match device_of h s with
  | None => (MMSYSERR_INVALHANDLE, s)
  | Some d => (dev_start d, s)
  end.

Definition getDevCaps (id : Z) (s : sim) : (Z * MIDIINCAPS) * sim :=
  match device_at id s with
  | None => ((MMSYSERR_BADDEVICEID, MIDIINCAPS_zero), s)
  | Some d =>
      if dev_caps d =? 0 then ((0, caps_of d), s)
      else ((dev_caps d, MIDIINCAPS_zero), s)
  end.

Definition close (h : Z) (s : sim) : Z * sim :=
  (0, {| devices := devices s;
         open_handles := filter (fun h' => h' <> h) (open_handles s) |}).

#[export] Instance winmm : WinMM := {|
  OS := sim;
  midiInGetNumDevs := getNumDevs;
  midiInOpen := open;
  midiInStart := start;
  midiInGetDevCaps := getDevCaps;
  midiInClose := close
|}.

(** A device that opens without error. *)
Definition good (h : Z) (name : list Z) : device :=
  {| dev_handle := h; dev_open := 0; dev_start := 0; dev_caps := 0; dev_name := name |}.

Definition boot (ds : list device) : sim := {| devices := ds; open_handles := [] |}.

End Script.

(** ** Predicates of the specification *)

Section Predicates.

Context {W : WinMM}.

(** The null handle has no entry in the handle map and is not active. *)
Definition no_null (st : State W) : Prop :=
  handle_to_device_info st !! NULL = None /\
  NULL ∉ StdList.values (active_handles st).


(** A handle present in the three views of the registry. *)
Definition fully_registered (st : State W) (h : Z) : Prop :=
  is_Some (handle_to_device_info st !! h) /\
  (exists e, endpoint_id_to_handle st !! e = Some h) /\
  h ∈ StdList.values (active_handles st).

(** A handle absent from the three views of the registry. *)
Definition fully_absent (st : State W) (h : Z) : Prop :=
  handle_to_device_info st !! h = None /\
  (forall e, endpoint_id_to_handle st !! e <> Some h) /\
  h ∉ StdList.values (active_handles st).

Definition registry_consistent (st : State W) : Prop :=
  forall h, fully_registered st h \/ fully_absent st h.

(** The three system calls of [OpenDevice] succeed for [deviceId] from
    the system state [o], giving the handle [h], the capabilities
    [caps] and the system state [o']. *)
Definition open_succeeds (deviceId : Z) (o : OS) (h : Z) (caps : MIDIINCAPS)
    (o' : OS) : Prop :=
  exists o1 o2,
    midiInOpen deviceId o = ((MMSYSERR_NOERROR, h), o1) /\
    midiInStart h o1 = (MMSYSERR_NOERROR, o2) /\
    midiInGetDevCaps deviceId o2 = ((MMSYSERR_NOERROR, caps), o').

(** One of the three system calls of [OpenDevice] fails for [deviceId]
    from the system state [o]; [o'] is the system state the attempt
    leaves, in which a handle that had been obtained is closed. *)
Inductive open_fails (deviceId : Z) (o : OS) : OS -> Prop :=
| open_fails_open r h o1 :
    midiInOpen deviceId o = ((r, h), o1) ->
    r <> MMSYSERR_NOERROR ->
    open_fails deviceId o o1
| open_fails_start r h o1 o2 :
    midiInOpen deviceId o = ((MMSYSERR_NOERROR, h), o1) ->
    midiInStart h o1 = (r, o2) ->
    r <> MMSYSERR_NOERROR ->
    open_fails deviceId o (snd (midiInClose h o2))
| open_fails_caps r h caps o1 o2 o3 :
    midiInOpen deviceId o = ((MMSYSERR_NOERROR, h), o1) ->
    midiInStart h o1 = (MMSYSERR_NOERROR, o2) ->
    midiInGetDevCaps deviceId o2 = ((r, caps), o3) ->
    r <> MMSYSERR_NOERROR ->
    open_fails deviceId o (snd (midiInClose h o3)).

(** The message the ingestion callback builds for a data event of the
    handle [h] with first parameter [dwParam1]. *)
Definition message_of (st : State W) (h dwParam1 : Z) : MidiMessage.t :=
  MidiMessage.make
    (endpointId (fst (subscript DeviceInfo_zero h (handle_to_device_info st))))
    (u32 dwParam1).

End Predicates.

(** The addresses of the nodes of a list are pairwise distinct. *)
Definition StdList_wf (l : StdList.t) : Prop :=
  NoDup (map StdList.addr (StdList.nodes l)) /\
  Forall (fun n => (StdList.addr n < StdList.fresh l)%nat) (StdList.nodes l).

(** ** Scenarios on the scripted operating system *)

Module Scenario.

Import Script.

(** Two devices that open without error. *)
Definition two_devices : sim :=
  boot [good 100 [80; 105; 97; 110; 111; 0; 33]; good 200 [83; 121; 110; 116; 104]].

(** The freshly loaded library over [two_devices]. *)
Definition unplugged : State winmm := initial two_devices.

(** The library after [OpenAllDevices] over [two_devices]. *)
Definition plugged : State winmm := OpenAllDevices unplugged.

(** A device whose handle has its low 32 bits clear, so that its
    endpoint identifier is 0. *)
Definition wide_handle : sim := boot [good (2 ^ 32) [68; 114; 117; 109]].

Definition wide : State winmm := OpenAllDevices (initial wide_handle).

(** Three devices; the second opens but does not start. *)
Definition flaky : sim :=
  boot [good 100 [65];
        {| dev_handle := 200; dev_open := 0; dev_start := 1; dev_caps := 0;
           dev_name := [66] |};
        good 300 [67]].

(** The library over [flaky] once the first device is open. *)
Definition flaky_first : State winmm := OpenDevice 0 (initial flaky).

(** A freshly loaded library with no device attached. *)
Definition bare : State winmm := initial (boot []).

End Scenario.

(** ** Formatting of a message

    [MidiMessage::ToString]: [snprintf] of ["(%X) %02X %02X %02X"] into a
    buffer of 256 characters. *)

Definition hex_digit (d : Z) : ascii :=
  if d <? 10 then ascii_of_N (Z.to_N (48 + d)) else ascii_of_N (Z.to_N (55 + d)).

(** The [n] low hexadecimal digits of [x], the most significant first. *)
Fixpoint hex_digits (n : nat) (x : Z) : list ascii :=
  match n with
  | O => []
  | S n => hex_digits n (x / 16) ++ [hex_digit (x mod 16)]
  end.

(** Leading zeros are not printed; the last digit always is. *)
Fixpoint strip_zeros (l : list ascii) : list ascii :=
  match l with
  | c :: (_ :: _) as rest => if Ascii.eqb c "0" then strip_zeros rest else l
  | _ => l
  end.

(** [%X] of an [unsigned int]. *)
Definition format_X (x : Z) : list ascii := strip_zeros (hex_digits 8 (u32 x)).

(** [%02X]: padded with zeros to two characters. *)
Definition format_02X (x : Z) : list ascii :=
  let s := format_X x in
  repeat "0"%char (2 - length s) ++ s.

Definition ToString (m : MidiMessage.t) : string :=
  let text :=
    ["("%char] ++ format_X (MidiMessage.source_ m) ++ [")"%char; " "%char] ++
    format_02X (MidiMessage.status_ m) ++ [" "%char] ++
    format_02X (MidiMessage.data1_ m) ++ [" "%char] ++
    format_02X (MidiMessage.data2_ m) in
  string_of_list_ascii (take 255 text).

(** ** Repeated polling *)

Section Polling.

Context {W : WinMM}.

(** [n] successive calls of [MidiJackDequeueIncomingData]. *)
Fixpoint dequeue_times (n : nat) (st : State W) : list Z * State W :=
  match n with
  | O => ([], st)
  | S n =>
      let '(v, st) := MidiJackDequeueIncomingData st in
      let '(vs, st) := dequeue_times n st in
      (v :: vs, st)
  end.

End Polling.

(** The endpoint identifier [OpenDevice] derives from a handle. *)
Definition endpoint_of (h : Z) : Z := u32 (Z.land h 0xFFFFFFFF).

(** ** The console client ([MidiJackTest.cpp]) *)

Module Client.

(** The arguments of one [printf] of the message log. *)
Record log_line := {
  log_source : Z;
  log_name : string;
  log_status : Z;
  log_data1 : Z;
  log_data2 : Z
}.

(** The arguments of one [printf] of the endpoint list. *)
Record endpoint_line := {
  ep_index : Z;
  ep_id : Z;
  ep_name : string
}.

Section Loops.

Context {W : WinMM}.

(** The first loop of [main]: dequeue until 0 is returned. *)
Fixpoint drain (fuel : nat) (st : State W) : outcome (State W) :=
  match fuel with
  | O => OutOfFuel
  | S fuel =>
      let '(msg, st) := MidiJackDequeueIncomingData st in
      if msg =? 0 then Returns st else drain fuel st
  end.

(** The loop over the messages of one frame: each message dequeued is
    decoded, its source is looked up by name, and a line is printed. *)
Fixpoint frame (fuel : nat) (st : State W) : outcome (list log_line * State W) :=
  match fuel with
  | O => OutOfFuel
  | S fuel =>
      let '(msg, st) := MidiJackDequeueIncomingData st in
      if msg =? 0 then Returns ([], st)
      else
        let source := decode_source msg in
        let status := decode_status msg in
        let data1 := decode_data1 msg in
        let data2 := decode_data2 msg in
        let '(name, st) := MidiJackGetEndpointName source st in
        let line := {| log_source := source; log_name := name;
                       log_status := status; log_data1 := data1;
                       log_data2 := data2 |} in
        match frame fuel st with
        | Returns (lines, st) => Returns (line :: lines, st)
        | Undefined => Undefined
        | OutOfFuel => OutOfFuel
        end
  end.

(** The two loops with a bound they cannot exhaust: every iteration
    that does not leave the loop takes a message from the queue. *)
Definition drain_all (st : State W) : outcome (State W) :=
  drain (S (length (message_queue st))) st.

Definition poll (st : State W) : outcome (list log_line * State W) :=
  frame (S (length (message_queue st))) st.

(** The loop that lists the endpoints, over the indices [is]. *)
Fixpoint list_endpoints (indices : list Z) (st : State W)
    : outcome (list endpoint_line * State W) :=
  match indices with
  | [] => Returns ([], st)
  | i :: rest =>
      match MidiJackGetEndpointIDAtIndex i st with
      | Undefined => Undefined
      | OutOfFuel => OutOfFuel
      | Returns (id, st) =>
          let '(name, st) := MidiJackGetEndpointName id st in
          let line := {| ep_index := i; ep_id := id; ep_name := name |} in
          match list_endpoints rest st with
          | Returns (lines, st) => Returns (line :: lines, st)
          | Undefined => Undefined
          | OutOfFuel => OutOfFuel
          end
      end
  end.

(** [endpointCount = MidiJackCountEndpoints()] and the loop
    [for (int i = 0; i < endpointCount; ++i)]. *)
Definition enumerate (st : State W) : outcome (list endpoint_line * State W) :=
  let '(endpointCount, st) := MidiJackCountEndpoints st in
  list_endpoints (seqZ 0 endpointCount) st.

(** The line of the log for the message [m], with the name its source
    has in the state [st]. *)
Definition log_of (st : State W) (m : MidiMessage.t) : log_line :=
  {| log_source := MidiMessage.source_ m;
     log_name := fst (MidiJackGetEndpointName (MidiMessage.source_ m) st);
     log_status := MidiMessage.status_ m;
     log_data1 := MidiMessage.data1_ m;
     log_data2 := MidiMessage.data2_ m |}.

(** The line of the endpoint list for the active handle at position [i]. *)
Definition endpoint_at (st : State W) (i : Z) : endpoint_line :=
  let h := default NULL (StdList.values (active_handles st) !! Z.to_nat i) in
  {| ep_index := i; ep_id := endpoint_of h; ep_name := c_str (GetDeviceName h st) |}.

End Loops.

(** The messages of a queue before, and after, the first one that packs
    to 0. *)
Fixpoint before_zero (q : list MidiMessage.t) : list MidiMessage.t :=
  match q with
  | [] => []
  | m :: rest =>
      if MidiMessage.Encode64Bit m =? 0 then [] else m :: before_zero rest
  end.

Fixpoint after_zero (q : list MidiMessage.t) : list MidiMessage.t :=
  match q with
  | [] => []
  | m :: rest =>
      if MidiMessage.Encode64Bit m =? 0 then rest else after_zero rest
  end.

End Client.

(** ** Sequences of calls on the exported surface *)

Inductive call :=
| Callback (hMidiIn wMsg dwInstance dwParam1 dwParam2 : Z)
| RefreshEndpoints
| CountEndpoints
| GetEndpointIDAtIndex (index : Z)
| GetEndpointName (id : Z)
| DequeueIncomingData.

Section Calls.

Context {W : WinMM}.

Definition state_of {A : Type} (r : outcome (A * State W)) : outcome (State W) :=
  match r with
  | Returns (_, st) => Returns st
  | Undefined => Undefined
  | OutOfFuel => OutOfFuel
  end.

Definition perform (c : call) (st : State W) : outcome (State W) :=
  match c with
  | Callback h msg inst p1 p2 => Returns (MidiInProc h msg inst p1 p2 st)
  | RefreshEndpoints => state_of (MidiJackRefreshEndpoints st)
  | CountEndpoints => Returns (snd (MidiJackCountEndpoints st))
  | GetEndpointIDAtIndex index => state_of (MidiJackGetEndpointIDAtIndex index st)
  | GetEndpointName id => Returns (snd (MidiJackGetEndpointName id st))
  | DequeueIncomingData => Returns (snd (MidiJackDequeueIncomingData st))
  end.

Fixpoint perform_all (cs : list call) (st : State W) : outcome (State W) :=
  match cs with
  | [] => Returns st
  | c :: cs =>
      match perform c st with
      | Returns st => perform_all cs st
      | Undefined => Undefined
      | OutOfFuel => OutOfFuel
      end
  end.

(** What the operations keep, whoever holds the lock: the nodes of the
    active list are distinct, every active handle has a [DeviceInfo] that
    holds the handle and the endpoint identifier derived from it, and
    every endpoint identifier of the handle map and every message of the
    queue is within the range of its type. *)
Record registry_ok (st : State W) : Prop := {
  ok_list : StdList_wf (active_handles st);
  ok_active :
    forall h, h ∈ StdList.values (active_handles st) ->
      exists info, handle_to_device_info st !! h = Some info /\
                   handle info = h /\ endpointId info = endpoint_of h;
  ok_ids :
    forall h info, handle_to_device_info st !! h = Some info ->
      0 <= endpointId info < 2 ^ 32;
  ok_queue : Forall MidiMessage.in_range (message_queue st)
}.

(** The state between two calls: the lock is not held. *)
Definition sound (st : State W) : Prop :=
  registry_ok st /\ resource_lock st = 0%nat.

End Calls.

(** ** A session on the scripted operating system *)

Module Session.

(** The two devices are open; a note-on arrives from the first, then an
    event with no payload for a handle that no device holds, then a
    note-off from the second. *)
Definition busy : State Script.winmm :=
  MidiInProc 200 MIM_DATA 0 0x003C80 0
    (MidiInProc 7 MIM_DATA 0 0 0
       (MidiInProc 100 MIM_DATA 0 0x7F3C90 0 Scenario.plugged)).

(** Calls of a host: refresh, two events, two lookups, one dequeue. *)
Definition calls : list call :=
  [RefreshEndpoints;
   Callback 100 MIM_DATA 0 0x7F3C90 0;
   Callback 7 MIM_DATA 0 0 0;
   GetEndpointIDAtIndex 1;
   GetEndpointName 5;
   DequeueIncomingData].

(** The state the calls leave from a freshly loaded library. *)
Definition after_calls : State Script.winmm :=
  match perform_all calls Scenario.unplugged with
  | Returns st => st
  | _ => Scenario.unplugged
  end.

End Session.

(** ** States at the edge of the registry *)

Module Edge.

Import Script.

(** A device whose name holds a wide character, U+0100, that narrows to
    the null character. *)
Definition accented_device : Script.sim :=
  Script.boot [Script.good 300 [0x41; 0x100; 0x42]].

(** The freshly loaded library over [accented_device], and the library
    once that device is open. *)
Definition closed : State Script.winmm := initial accented_device.
Definition accented : State Script.winmm := OpenAllDevices closed.


End Edge.

(** ** Bit-level lemmas for the codec *)

Section CodecBits.

Lemma u8_small x : 0 <= x < 2 ^ 8 -> u8 x = x.
Proof. intros H. unfold u8. now apply Z.mod_small. Qed.

Lemma u32_small x : 0 <= x < 2 ^ 32 -> u32 x = x.
Proof. intros H. unfold u32. now apply Z.mod_small. Qed.

Lemma u64_small x : 0 <= x < 2 ^ 64 -> u64 x = x.
Proof. intros H. unfold u64. now apply Z.mod_small. Qed.

Lemma u8_range x : 0 <= u8 x < 2 ^ 8.
Proof. unfold u8. apply Z.mod_pos_bound. lia. Qed.

(** A value below [2^k] has no bit set at or above position [k]. *)
Lemma testbit_above (x k n : Z) :
  0 <= x < 2 ^ k -> 0 <= k <= n -> Z.testbit x n = false.
Proof.
  intros Hx Hk.
  destruct (Z.eq_dec x 0) as [-> | Hne]; [apply Z.bits_0 |].
  apply Z.bits_above_log2; [lia |].
  assert (Z.log2 x < k) by (apply Z.log2_lt_pow2; lia). lia.
Qed.

(** The encoding as a sum of the shifted fields. *)
Lemma Encode64Bit_layout (m : MidiMessage.t) :
  MidiMessage.in_range m ->
  MidiMessage.Encode64Bit m =
    Z.lor (Z.lor (Z.lor (MidiMessage.source_ m)
                        (Z.shiftl (MidiMessage.status_ m) 32))
                 (Z.shiftl (MidiMessage.data1_ m) 40))
          (Z.shiftl (MidiMessage.data2_ m) 48).
Proof.
  intros (Hs & Hst & Hd1 & Hd2). unfold MidiMessage.Encode64Bit.
  assert (Hsh : forall x k, 0 <= x < 2 ^ 8 -> 0 <= k <= 48 ->
                  u64 (Z.shiftl (u64 x) k) = Z.shiftl x k).
  { intros x k Hx Hk. rewrite (u64_small x) by lia.
    apply u64_small. rewrite Z.shiftl_mul_pow2 by lia. split; [nia |].
    assert (2 ^ k <= 2 ^ 48) by (apply Z.pow_le_mono_r; lia).
    assert (2 ^ 8 * 2 ^ 48 < 2 ^ 64) by (vm_compute; reflexivity).
    assert (0 < 2 ^ k) by (apply Z.pow_pos_nonneg; lia). nia. }
  rewrite !Hsh by lia. rewrite u64_small by lia. reflexivity.
Qed.

End CodecBits.

(** The four extractions of the client undo the packing. *)
Lemma decode_Encode64Bit (m : MidiMessage.t) :
  MidiMessage.in_range m ->
  decode (MidiMessage.Encode64Bit m) =
    (MidiMessage.source_ m, MidiMessage.status_ m,
     MidiMessage.data1_ m, MidiMessage.data2_ m).
Proof.
  intros Hr. rewrite Encode64Bit_layout by assumption.
  destruct Hr as (Hs & Hst & Hd1 & Hd2).
  destruct m as [s st d1 d2]; simpl in *.
  assert (Hbits : forall x k n, 0 <= x < 2 ^ k -> 0 <= k <= n ->
                    Z.testbit x n = false) by apply testbit_above.
  unfold decode, decode_source, decode_status, decode_data1, decode_data2.
  change 0xFFFFFFFF with (Z.ones 32). change 0xFF with (Z.ones 8).
  rewrite !Z.land_ones by lia. unfold u8, u32. rewrite !Z.mod_mod by lia.
  rewrite <- !Z.land_ones by lia.
  repeat f_equal.
  - apply Z.bits_inj'. intros n Hn.
    rewrite Z.land_spec, Z.shiftr_spec, !Z.lor_spec, !Z.shiftl_spec by lia.
    rewrite Z.add_0_r.
    destruct (Z.lt_ge_cases n 32) as [Hlt | Hge].
    + rewrite Z.ones_spec_low by lia.
      rewrite !(Z.testbit_neg_r _ (n - _)) by lia.
      now rewrite !orb_false_r, andb_true_r.
    + rewrite Z.ones_spec_high by lia. rewrite andb_false_r.
      symmetry. apply (Hbits s 32); lia.
  - apply Z.bits_inj'. intros n Hn.
    rewrite Z.land_spec, Z.shiftr_spec, !Z.lor_spec, !Z.shiftl_spec by lia.
    destruct (Z.lt_ge_cases n 8) as [Hlt | Hge].
    + rewrite Z.ones_spec_low by lia.
      rewrite (Hbits s 32) by lia.
      rewrite !(Z.testbit_neg_r _ (n + 32 - 40)), !(Z.testbit_neg_r _ (n + 32 - 48)) by lia.
      replace (n + 32 - 32) with n by lia.
      now rewrite !orb_false_r, andb_true_r.
    + rewrite Z.ones_spec_high by lia. rewrite andb_false_r.
      symmetry. apply (Hbits st 8); lia.
  - apply Z.bits_inj'. intros n Hn.
    rewrite Z.land_spec, Z.shiftr_spec, !Z.lor_spec, !Z.shiftl_spec by lia.
    destruct (Z.lt_ge_cases n 8) as [Hlt | Hge].
    + rewrite Z.ones_spec_low by lia.
      rewrite (Hbits s 32), (Hbits st 8) by lia.
      rewrite !(Z.testbit_neg_r _ (n + 40 - 48)) by lia.
      replace (n + 40 - 40) with n by lia.
      now rewrite !orb_false_r, andb_true_r.
    + rewrite Z.ones_spec_high by lia. rewrite andb_false_r.
      symmetry. apply (Hbits d1 8); lia.
  - apply Z.bits_inj'. intros n Hn.
    rewrite Z.land_spec, Z.shiftr_spec, !Z.lor_spec, !Z.shiftl_spec by lia.
    destruct (Z.lt_ge_cases n 8) as [Hlt | Hge].
    + rewrite Z.ones_spec_low by lia.
      rewrite (Hbits s 32), (Hbits st 8), (Hbits d1 8) by lia.
      replace (n + 48 - 48) with n by lia.
      now rewrite andb_true_r.
    + rewrite Z.ones_spec_high by lia. rewrite andb_false_r.
      symmetry. apply (Hbits d2 8); lia.
Qed.


(** C1. Decoding the 64-bit value produced by [Encode64Bit] with the
    client's fixed bit layout recovers the endpoint identifier, the
    status byte and the two data bytes, for every endpoint identifier in
    [0, 2^32) and all three bytes in [0, 255]. *)
Theorem codec_round_trip (source status data1 data2 : Z) :
  0 <= source < 2 ^ 32 ->
  0 <= status <= 255 ->
  0 <= data1 <= 255 ->
  0 <= data2 <= 255 ->
  decode (MidiMessage.Encode64Bit (MidiMessage.Build source status data1 data2)) =
    (source, status, data1, data2).
Proof.
  intros Hs Hst Hd1 Hd2.
  apply (decode_Encode64Bit (MidiMessage.Build source status data1 data2)).
  unfold MidiMessage.in_range. cbn. lia.
Qed.

(** ** The message queue and the ingestion callback *)

Section Queue.

Context {W : WinMM}.
Implicit Types st : State W.

Lemma subscript_fst_lookup {V : Type} (d : V) (k : Z) (m : gmap Z V) :
  fst (subscript d k m) = default d (m !! k).
Proof. unfold subscript. now destruct (m !! k). Qed.

Lemma subscript_present {V : Type} (d v : V) (k : Z) (m : gmap Z V) :
  m !! k = Some v -> subscript d k m = (v, m).
Proof. intros H. unfold subscript. now rewrite H. Qed.

Lemma subscript_absent {V : Type} (d : V) (k : Z) (m : gmap Z V) :
  m !! k = None -> subscript d k m = (d, <[k := d]> m).
Proof. intros H. unfold subscript. now rewrite H. Qed.

(** A data event appends the message built from the event to the
    queue; the lock is released as it was found. *)
Lemma MidiInProc_data st h inst p1 p2 :
  MidiInProc h MIM_DATA inst p1 p2 st =
    set_queue (message_queue st ++ [message_of st h p1])
      (set_info (snd (subscript DeviceInfo_zero h (handle_to_device_info st))) st).
Proof.
  unfold MidiInProc, message_of. rewrite Z.eqb_refl.
  destruct (subscript DeviceInfo_zero h (handle_to_device_info st)) as [info m].
  destruct st; reflexivity.
Qed.

(** Any other event leaves the state as it is. *)
Lemma MidiInProc_other st h msg inst p1 p2 :
  msg <> MIM_DATA -> MidiInProc h msg inst p1 p2 st = st.
Proof.
  intros Hne. unfold MidiInProc.
  destruct (Z.eqb_spec msg MIM_DATA); [contradiction | reflexivity].
Qed.

Lemma MidiInProc_queue st h inst p1 p2 :
  message_queue (MidiInProc h MIM_DATA inst p1 p2 st) =
    message_queue st ++ [message_of st h p1].
Proof. now rewrite MidiInProc_data. Qed.

Lemma Dequeue_empty st :
  message_queue st = [] -> MidiJackDequeueIncomingData st = (0, st).
Proof. intros H. unfold MidiJackDequeueIncomingData. now rewrite H. Qed.

Lemma Dequeue_front st msg rest :
  message_queue st = msg :: rest ->
  MidiJackDequeueIncomingData st = (MidiMessage.Encode64Bit msg, set_queue rest st).
Proof.
  intros H. unfold MidiJackDequeueIncomingData. rewrite H.
  destruct st; reflexivity.
Qed.

Lemma make_in_range (source raw : Z) :
  0 <= source < 2 ^ 32 -> MidiMessage.in_range (MidiMessage.make source raw).
Proof.
  intros Hs. unfold MidiMessage.in_range, MidiMessage.make; simpl.
  repeat split; try apply u8_range; lia.
Qed.

End Queue.

(** C5. The encoding of the message with endpoint identifier 0, status
    0 and data bytes 0 is the value 0, the value [DequeueIncomingData]
    returns for an empty queue: dequeuing that message and dequeuing from
    an empty queue return the same value. *)
Theorem zero_message_collides_with_sentinel `{W : WinMM} (st : State W) :
  MidiMessage.Encode64Bit (MidiMessage.Build 0 0 0 0) = 0 /\
  fst (MidiJackDequeueIncomingData (set_queue [] st)) = 0 /\
  fst (MidiJackDequeueIncomingData (set_queue [MidiMessage.Build 0 0 0 0] st)) =
    fst (MidiJackDequeueIncomingData (set_queue [] st)).
Proof.
  split; [reflexivity |]. split; reflexivity.
Qed.

(** C4. Three data events delivered to the ingestion callback while the
    queue is empty are dequeued in the order of their delivery: three
    calls of [DequeueIncomingData] return the encodings of the three
    messages in that order, and a fourth returns 0. *)
Theorem queue_fifo `{W : WinMM} (st : State W)
    (h1 h2 h3 i1 i2 i3 p1 p2 p3 q1 q2 q3 : Z) :
  message_queue st = [] ->
  let st1 := MidiInProc h1 MIM_DATA i1 p1 q1 st in
  let st2 := MidiInProc h2 MIM_DATA i2 p2 q2 st1 in
  let st3 := MidiInProc h3 MIM_DATA i3 p3 q3 st2 in
  let M1 := message_of st h1 p1 in
  let M2 := message_of st1 h2 p2 in
  let M3 := message_of st2 h3 p3 in
  let d1 := MidiJackDequeueIncomingData st3 in
  let d2 := MidiJackDequeueIncomingData (snd d1) in
  let d3 := MidiJackDequeueIncomingData (snd d2) in
  let d4 := MidiJackDequeueIncomingData (snd d3) in
  message_queue st3 = [M1; M2; M3] /\
  fst d1 = MidiMessage.Encode64Bit M1 /\
  fst d2 = MidiMessage.Encode64Bit M2 /\
  fst d3 = MidiMessage.Encode64Bit M3 /\
  fst d4 = 0 /\
  message_queue (snd d4) = [].
Proof.
  intros Hq st1 st2 st3 M1 M2 M3 d1 d2 d3 d4.
  assert (Hq3 : message_queue st3 = [M1; M2; M3]).
  { subst st3 st2 st1. rewrite !MidiInProc_queue, Hq. reflexivity. }
  assert (H1 : d1 = (MidiMessage.Encode64Bit M1, set_queue [M2; M3] st3)).
  { subst d1. now apply Dequeue_front. }
  assert (H2 : d2 = (MidiMessage.Encode64Bit M2, set_queue [M3] (snd d1))).
  { subst d2. apply Dequeue_front. now rewrite H1. }
  assert (H3 : d3 = (MidiMessage.Encode64Bit M3, set_queue [] (snd d2))).
  { subst d3. apply Dequeue_front. now rewrite H2. }
  assert (H4 : d4 = (0, snd d3)).
  { subst d4. apply Dequeue_empty. now rewrite H3. }
  rewrite H4. cbn [fst snd]. rewrite H3 at 1 2. rewrite H2 at 1. rewrite H1 at 1.
  now repeat split.
Qed.

(** C10. A data event for a handle that has no entry in the handle map
    is not discarded: the callback inserts a value-initialised
    [DeviceInfo] for the handle and enqueues a message whose endpoint
    identifier is 0; dequeued, it decodes to source 0 and is the very
    encoding of the same event arriving from a device registered with
    endpoint identifier 0. *)
Theorem callback_on_unregistered_handle `{W : WinMM} (st : State W)
    (h inst p1 p2 : Z) :
  handle_to_device_info st !! h = None ->
  let st' := MidiInProc h MIM_DATA inst p1 p2 st in
  let M := MidiMessage.make 0 (u32 p1) in
  handle_to_device_info st' = <[h := DeviceInfo_zero]> (handle_to_device_info st) /\
  message_queue st' = message_queue st ++ [M] /\
  MidiMessage.source_ M = 0 /\
  decode_source (MidiMessage.Encode64Bit M) = 0 /\
  (message_queue st = [] ->
   fst (MidiJackDequeueIncomingData st') = MidiMessage.Encode64Bit M) /\
  (forall (st0 : State W) h0 info i0 q0,
     handle_to_device_info st0 !! h0 = Some info -> endpointId info = 0 ->
     message_queue st0 = [] ->
     fst (MidiJackDequeueIncomingData (MidiInProc h0 MIM_DATA i0 p1 q0 st0)) =
       MidiMessage.Encode64Bit M).
Proof.
  intros Hnone st' M.
  assert (HM : message_of st h p1 = M).
  { unfold message_of. now rewrite (subscript_absent _ _ _ Hnone). }
  assert (Hst' : st' = set_queue (message_queue st ++ [M])
                         (set_info (<[h := DeviceInfo_zero]> (handle_to_device_info st)) st)).
  { subst st'. rewrite MidiInProc_data, HM. now rewrite (subscript_absent _ _ _ Hnone). }
  split; [now rewrite Hst' |]. split; [now rewrite Hst' |]. split; [reflexivity |].
  split.
  { pose proof (decode_Encode64Bit M (make_in_range 0 (u32 p1) ltac:(lia))) as Hd.
    unfold decode in Hd. now inversion Hd. }
  split.
  { intros Hq. erewrite Dequeue_front; [reflexivity |].
    rewrite Hst'. cbn. now rewrite Hq. }
  intros st0 h0 info i0 q0 Hinfo He Hq.
  erewrite Dequeue_front; [reflexivity |].
  rewrite MidiInProc_queue, Hq. cbn. f_equal.
  unfold message_of. rewrite (subscript_present _ _ _ _ Hinfo). cbn. now rewrite He.
Qed.

(** ** The registry *)

Section Registry.

Context {W : WinMM}.
Implicit Types st : State W.

Lemma GetEndpointName_registered st id h :
  endpoint_id_to_handle st !! id = Some h ->
  MidiJackGetEndpointName id st = (c_str (GetDeviceName h st), st).
Proof.
  intros H. unfold MidiJackGetEndpointName.
  rewrite (subscript_present _ _ _ _ H). destruct st; reflexivity.
Qed.

Lemma GetEndpointName_absent st id :
  endpoint_id_to_handle st !! id = None ->
  MidiJackGetEndpointName id st =
    (c_str (GetDeviceName NULL st),
     set_endpoints (<[id := NULL]> (endpoint_id_to_handle st)) st).
Proof.
  intros H. unfold MidiJackGetEndpointName.
  rewrite (subscript_absent _ _ _ H). reflexivity.
Qed.


Lemma GetDeviceName_absent st h :
  handle_to_device_info st !! h = None -> GetDeviceName h st = "unknown"%string.
Proof. intros H. unfold GetDeviceName. now rewrite H. Qed.

(** The fallback literal holds no null character. *)
Lemma c_str_unknown st h :
  handle_to_device_info st !! h = None ->
  c_str (GetDeviceName h st) = "unknown"%string.
Proof. intros H. now rewrite (GetDeviceName_absent st h H). Qed.

(** The state [OpenDevice] leaves when the three calls succeed. *)
Lemma OpenDevice_success st deviceId h caps o' :
  open_succeeds deviceId (os_state st) h caps o' ->
  OpenDevice deviceId st =
    {| handle_to_device_info :=
         <[h := {| handle := h; deviceId := deviceId;
                   endpointId := u32 (Z.land h 0xFFFFFFFF);
                   deviceCaps := caps |}]> (handle_to_device_info st);
       endpoint_id_to_handle :=
         <[u32 (Z.land h 0xFFFFFFFF) := h]> (endpoint_id_to_handle st);
       message_queue := message_queue st;
       active_handles := StdList.push_back h (active_handles st);
       resource_lock := resource_lock st;
       os_state := o' |}.
Proof.
  intros (o1 & o2 & Hopen & Hstart & Hcaps). unfold OpenDevice.
  rewrite Hopen. cbn. rewrite Hstart. cbn. rewrite Hcaps. cbn. reflexivity.
Qed.

(** The state [OpenDevice] leaves when one of the three calls fails. *)
Lemma OpenDevice_failure st deviceId o' :
  open_fails deviceId (os_state st) o' ->
  OpenDevice deviceId st = set_os o' st.
Proof.
  intros Hf. unfold OpenDevice.
  destruct Hf as [r h o1 Hopen Hr | r h o1 o2 Hopen Hstart Hr
                 | r h caps o1 o2 o3 Hopen Hstart Hcaps Hr].
  - rewrite Hopen. cbn. destruct (Z.eqb_spec r MMSYSERR_NOERROR); [contradiction |].
    reflexivity.
  - rewrite Hopen. cbn. rewrite Hstart. cbn.
    destruct (Z.eqb_spec r MMSYSERR_NOERROR); [contradiction |]. reflexivity.
  - rewrite Hopen. cbn. rewrite Hstart. cbn. rewrite Hcaps. cbn.
    destruct (Z.eqb_spec r MMSYSERR_NOERROR); [contradiction |]. reflexivity.
Qed.

(** The state [CloseDevice] leaves, by whether the handle has an entry
    in the handle map. *)
Lemma CloseDevice_state st h :
  CloseDevice h st =
    {| handle_to_device_info := delete h (handle_to_device_info st);
       endpoint_id_to_handle :=
         delete (endpointId (default DeviceInfo_zero (handle_to_device_info st !! h)))
                (endpoint_id_to_handle st);
       message_queue := message_queue st;
       active_handles := StdList.remove h (active_handles st);
       resource_lock := resource_lock st;
       os_state := snd (midiInClose h (os_state st)) |}.
Proof.
  unfold CloseDevice, subscript. cbn.
  destruct (handle_to_device_info st !! h) as [info |] eqn:Hl; cbn.
  - reflexivity.
  - now rewrite delete_insert_eq.
Qed.

Lemma remove_values h l :
  StdList.values (StdList.remove h l) = filter (fun v => v <> h) (StdList.values l).
Proof.
  unfold StdList.values, StdList.remove; cbn.
  induction (StdList.nodes l) as [| n ns IH]; [reflexivity |].
  rewrite filter_cons, map_cons, filter_cons.
  destruct (decide (StdList.value n <> h)); rewrite ?map_cons, IH; reflexivity.
Qed.

Lemma push_back_values h l :
  StdList.values (StdList.push_back h l) = StdList.values l ++ [h].
Proof. unfold StdList.values, StdList.push_back; cbn. now rewrite map_app. Qed.

Lemma size_values l : StdList.size l = length (StdList.values l).
Proof. unfold StdList.size, StdList.values. now rewrite length_map. Qed.


Lemma remove_absent h l :
  h ∉ StdList.values l -> StdList.remove h l = l.
Proof.
  intros Hn. destruct l as [ns f]. unfold StdList.remove, StdList.values in *; cbn in *.
  f_equal. induction ns as [| n ns IH]; [reflexivity |].
  cbn in Hn. apply not_elem_of_cons in Hn as [Hne Hn].
  rewrite filter_cons.
  destruct (decide (StdList.value n <> h)) as [| Hc]; [| exfalso; apply Hc; congruence].
  now rewrite IH.
Qed.

(** Closing a handle that is neither in the handle map nor active
    changes the endpoint map alone, where it erases the entry of the
    endpoint identifier 0. *)
Lemma CloseDevice_unregistered st h :
  handle_to_device_info st !! h = None ->
  h ∉ StdList.values (active_handles st) ->
  CloseDevice h st =
    set_os (snd (midiInClose h (os_state st)))
      (set_endpoints (delete 0 (endpoint_id_to_handle st)) st).
Proof.
  intros Hm Ha. rewrite CloseDevice_state, Hm. cbn.
  rewrite (remove_absent _ _ Ha), (delete_id _ _ Hm).
  destruct st; reflexivity.
Qed.

Lemma to_int_small (n : Z) : - 2 ^ 31 <= n < 2 ^ 31 -> to_int n = n.
Proof. intros H. unfold to_int. rewrite Z.mod_small by lia. lia. Qed.

(** *** The null handle stays out of the registry *)

Lemma no_null_MidiInProc st h msg inst p1 p2 :
  h <> NULL -> no_null st -> no_null (MidiInProc h msg inst p1 p2 st).
Proof.
  intros Hh [Hm Ha]. unfold MidiInProc.
  destruct (msg =? MIM_DATA); [| now split].
  unfold subscript. destruct (handle_to_device_info st !! h); split; cbn; try done.
  now rewrite lookup_insert_ne.
Qed.

Lemma no_null_OpenDevice st deviceId :
  (forall r h o, midiInOpen deviceId (os_state st) = ((r, h), o) ->
                 r = MMSYSERR_NOERROR -> h <> NULL) ->
  no_null st -> no_null (OpenDevice deviceId st).
Proof.
  intros Hos [Hm Ha]. unfold OpenDevice.
  destruct (midiInOpen deviceId (os_state st)) as [[r h] o] eqn:Hopen. cbn.
  destruct (Z.eqb_spec r MMSYSERR_NOERROR) as [Hr |]; [| now split].
  specialize (Hos r h o eq_refl Hr).
  destruct (midiInStart h o) as [r2 o2]. cbn.
  destruct (r2 =? MMSYSERR_NOERROR); [| now split].
  destruct (midiInGetDevCaps deviceId o2) as [[r3 caps] o3]. cbn.
  destruct (r3 =? MMSYSERR_NOERROR); [| now split].
  split.
  - cbn. now rewrite lookup_insert_ne.
  - change (NULL ∉ StdList.values (StdList.push_back h (active_handles st))).
    rewrite push_back_values. rewrite elem_of_app, list_elem_of_singleton.
    intros [? | ?]; [contradiction | congruence].
Qed.

Lemma no_null_initial (o : OS) : no_null (initial o).
Proof. split; [apply lookup_empty | apply not_elem_of_nil]. Qed.

Lemma no_null_open_range ids st :
  (forall id o r h o', midiInOpen id o = ((r, h), o') ->
                       r = MMSYSERR_NOERROR -> h <> NULL) ->
  no_null st -> no_null (open_range ids st).
Proof.
  intros Hos. revert st. induction ids as [| id ids IH]; intros st Hn; [assumption |].
  apply IH. apply no_null_OpenDevice; [| assumption].
  intros r h o. apply Hos.
Qed.

Lemma no_null_CloseDevice st h : no_null st -> no_null (CloseDevice h st).
Proof.
  intros [Hm Ha]. rewrite CloseDevice_state. split.
  - cbn. rewrite lookup_delete. now destruct (decide (h = NULL)).
  - cbn [active_handles]. rewrite remove_values. intros Hin. apply list_elem_of_filter in Hin as [_ Hin].
    contradiction.
Qed.

Lemma no_null_GetEndpointName st id :
  no_null st -> no_null (snd (MidiJackGetEndpointName id st)).
Proof.
  intros [Hm Ha]. unfold MidiJackGetEndpointName, subscript.
  destruct (endpoint_id_to_handle st !! id); now split.
Qed.

Lemma no_null_Dequeue st :
  no_null st -> no_null (snd (MidiJackDequeueIncomingData st)).
Proof.
  intros [Hm Ha]. unfold MidiJackDequeueIncomingData.
  destruct (message_queue st); now split.
Qed.

Lemma deref_values it l h :
  StdList.deref it l = Some h -> h ∈ StdList.values l.
Proof.
  destruct it as [a |]; [| discriminate]. cbn. unfold StdList.values.
  induction (StdList.nodes l) as [| n ns IH]; [discriminate |].
  cbn. destruct (Nat.eqb (StdList.addr n) a); cbn.
  - intros [= <-]. apply list_elem_of_here.
  - intros H. apply list_elem_of_further. now apply IH.
Qed.

Lemma no_null_GetEndpointIDAtIndex st index r st' :
  no_null st ->
  MidiJackGetEndpointIDAtIndex index st = Returns (r, st') -> no_null st'.
Proof.
  intros [Hm Ha]. unfold MidiJackGetEndpointIDAtIndex.
  destruct (index <? 0); [discriminate |].
  destruct (advance _ _ _) as [itr |]; [| discriminate].
  destruct (StdList.deref itr (active_handles st)) as [h |] eqn:Hd; [| discriminate].
  apply deref_values in Hd.
  assert (h <> NULL) by (intros ->; contradiction).
  unfold subscript. destruct (handle_to_device_info st !! h);
    intros [= <- <-]; split; cbn; try done.
  now rewrite lookup_insert_ne.
Qed.

End Registry.





(** C6. When one of the three system calls of [OpenDevice] fails for a
    device, the registry maps, the active handles and the queue are left
    as they were, the system is left in the state in which a handle that
    had been obtained is closed, and the loop of [OpenAllDevices] goes on
    with the remaining device indices. *)
Theorem failed_open_is_skipped `{W : WinMM} (st : State W) (deviceId : Z)
    (o' : OS) (rest : list Z) :
  open_fails deviceId (os_state st) o' ->
  let st' := OpenDevice deviceId st in
  handle_to_device_info st' = handle_to_device_info st /\
  endpoint_id_to_handle st' = endpoint_id_to_handle st /\
  active_handles st' = active_handles st /\
  message_queue st' = message_queue st /\
  os_state st' = o' /\
  open_range (deviceId :: rest) st = open_range rest (set_os o' st).
Proof.
  intros Hf st'. pose proof (OpenDevice_failure st deviceId o' Hf) as Hst'.
  fold st' in Hst'. rewrite Hst'. repeat split.
  unfold open_range. cbn [foldl]. fold st'. now rewrite Hst'.
Qed.

(** ** Node addresses of the active list *)

Section ListInvariant.

Context {W : WinMM}.
Implicit Types st : State W.

Lemma StdList_wf_new : StdList_wf StdList.new.
Proof. split; [apply NoDup_nil_2 | apply Forall_nil_2]. Qed.

Lemma StdList_wf_push_back v l :
  StdList_wf l -> StdList_wf (StdList.push_back v l).
Proof.
  intros [Hnd Hlt]. split; cbn [StdList.push_back StdList.nodes StdList.fresh].
  - rewrite map_app. apply NoDup_app. split; [assumption |]. split.
    + intros a Ha. cbn. rewrite list_elem_of_singleton. intros ->.
      apply list_elem_of_fmap in Ha as (n & Hn & Hin).
      rewrite Forall_forall in Hlt. specialize (Hlt n Hin). lia.
    + apply NoDup_singleton.
  - apply Forall_app. split.
    + eapply Forall_impl; [eassumption |]. cbn. intros n Hn. lia.
    + apply Forall_singleton. cbn. lia.
Qed.

Lemma StdList_wf_remove v l :
  StdList_wf l -> StdList_wf (StdList.remove v l).
Proof.
  intros [Hnd Hlt]. split; cbn [StdList.remove StdList.nodes StdList.fresh].
  - eapply sublist_NoDup; [exact Hnd |].
    apply (fmap_sublist StdList.addr), sublist_filter.
  - rewrite Forall_forall in *. intros n Hn.
    apply list_elem_of_filter in Hn as [_ Hn]. now apply Hlt.
Qed.

Lemma StdList_wf_OpenDevice st deviceId :
  StdList_wf (active_handles st) ->
  StdList_wf (active_handles (OpenDevice deviceId st)).
Proof.
  intros Hwf. unfold OpenDevice.
  destruct (midiInOpen deviceId (os_state st)) as [[r h] o]. cbn.
  destruct (r =? MMSYSERR_NOERROR); [| assumption].
  destruct (midiInStart h o) as [r2 o2]. cbn.
  destruct (r2 =? MMSYSERR_NOERROR); [| assumption].
  destruct (midiInGetDevCaps deviceId o2) as [[r3 caps] o3]. cbn.
  destruct (r3 =? MMSYSERR_NOERROR); [| assumption].
  now apply StdList_wf_push_back.
Qed.

Lemma StdList_wf_CloseDevice st h :
  StdList_wf (active_handles st) ->
  StdList_wf (active_handles (CloseDevice h st)).
Proof.
  intros Hwf. rewrite CloseDevice_state. cbn [active_handles].
  now apply StdList_wf_remove.
Qed.

Lemma StdList_wf_open_range ids st :
  StdList_wf (active_handles st) ->
  StdList_wf (active_handles (open_range ids st)).
Proof.
  revert st. induction ids as [| id ids IH]; intros st Hwf; [assumption |].
  apply IH. now apply StdList_wf_OpenDevice.
Qed.

Lemma StdList_wf_OpenAllDevices st :
  StdList_wf (active_handles st) ->
  StdList_wf (active_handles (OpenAllDevices st)).
Proof.
  intros Hwf. unfold OpenAllDevices.
  destruct (midiInGetNumDevs (os_state st)) as [n o].
  now apply StdList_wf_open_range.
Qed.

End ListInvariant.

(** ** Refresh and iterator validity *)

Section Refresh.

Context {W : WinMM}.
Implicit Types st : State W.

Lemma successor_absent a ns :
  a ∉ map StdList.addr ns -> StdList.successor a ns = None.
Proof.
  induction ns as [| n ns IH]; [reflexivity |].
  cbn [map StdList.successor]. intros Hn.
  apply not_elem_of_cons in Hn as [Hne Hn].
  destruct (Nat.eqb_spec (StdList.addr n) a); [congruence | now apply IH].
Qed.

Lemma filter_addr_subset (P : StdList.node -> Prop) `{forall n, Decision (P n)}
    a (ns : list StdList.node) :
  a ∈ map StdList.addr (filter P ns) -> a ∈ map StdList.addr ns.
Proof.
  intros Hin. apply list_elem_of_fmap in Hin as (n & -> & Hn).
  apply list_elem_of_filter in Hn as [_ Hn].
  apply list_elem_of_fmap. eauto.
Qed.

(** Once [remove] has erased the node an iterator designates, the
    iterator cannot be incremented. *)
Lemma next_after_remove n rest f :
  NoDup (map StdList.addr (n :: rest)) ->
  StdList.next (StdList.At (StdList.addr n))
    (StdList.remove (StdList.value n) (StdList.Build (n :: rest) f)) = None.
Proof.
  intros Hnd. apply NoDup_cons in Hnd as [Hn _].
  unfold StdList.next, StdList.remove. cbn [StdList.nodes].
  apply successor_absent. rewrite filter_cons.
  destruct (decide (StdList.value n <> StdList.value n)) as [Hc |]; [congruence |].
  intros Hin. apply Hn. eapply filter_addr_subset, Hin.
Qed.

Lemma active_handles_CloseDevice st h :
  active_handles (CloseDevice h st) = StdList.remove h (active_handles st).
Proof. now rewrite CloseDevice_state. Qed.

(** With no active handle, [RefreshDevices] is [OpenAllDevices] under
    one acquisition of the lock. *)
Lemma RefreshDevices_empty st :
  StdList.nodes (active_handles st) = [] ->
  RefreshDevices st = Returns (unlock (OpenAllDevices (lock st))).
Proof.
  intros He. unfold RefreshDevices, StdList.begin.
  cbn [lock set_lock active_handles]. rewrite He. reflexivity.
Qed.

(** The closing loop started at the first node: [CloseDevice] erases
    that node, and the increment that follows is undefined. *)
Lemma close_each_first fuel st n rest f :
  active_handles st = StdList.Build (n :: rest) f ->
  NoDup (map StdList.addr (n :: rest)) ->
  close_each (S fuel) (StdList.At (StdList.addr n)) st = Undefined.
Proof.
  intros Hact Hnd. cbn [close_each]. rewrite Hact.
  cbn [StdList.deref StdList.nodes List.find]. rewrite Nat.eqb_refl.
  cbn [fmap option_fmap option_map]. rewrite active_handles_CloseDevice, Hact.
  now rewrite (next_after_remove n rest f Hnd).
Qed.

(** With an active handle, [RefreshDevices] is undefined. *)
Lemma RefreshDevices_nonempty st :
  StdList_wf (active_handles st) ->
  StdList.nodes (active_handles st) <> [] ->
  RefreshDevices st = Undefined.
Proof.
  intros [Hnd _] Hne. unfold RefreshDevices, StdList.begin.
  change (active_handles (lock st)) with (active_handles st).
  destruct (active_handles st) as [ns f] eqn:Hact. cbn [StdList.nodes] in *.
  destruct ns as [| n rest]; [contradiction |].
  cbn [StdList.first].
  now rewrite (close_each_first _ (lock st) n rest f Hact Hnd).
Qed.

(** The bound of the closing loop is never exhausted. *)
Lemma RefreshDevices_total st :
  StdList_wf (active_handles st) -> RefreshDevices st <> OutOfFuel.
Proof.
  intros Hwf. destruct (StdList.nodes (active_handles st)) as [| n rest] eqn:Hn.
  - now rewrite (RefreshDevices_empty st Hn).
  - rewrite (RefreshDevices_nonempty st Hwf); [discriminate | now rewrite Hn].
Qed.

(** The loop of [CloseAllDevices] leaves no active handle. *)
Lemma close_front_empties fuel st :
  (StdList.size (active_handles st) <= fuel)%nat ->
  StdList.nodes (active_handles (close_front fuel st)) = [].
Proof.
  revert st. induction fuel as [| fuel IH]; intros st Hsz.
  - cbn. unfold StdList.size in Hsz.
    destruct (StdList.nodes (active_handles st)); [reflexivity | cbn in Hsz; lia].
  - cbn [close_front]. unfold StdList.empty, StdList.front.
    destruct (StdList.nodes (active_handles st)) as [| n rest] eqn:Hn; [assumption |].
    apply IH. rewrite active_handles_CloseDevice.
    unfold StdList.size, StdList.remove in *. cbn [StdList.nodes]. rewrite Hn in *.
    rewrite filter_cons.
    destruct (decide (StdList.value n <> StdList.value n)) as [Hc |]; [congruence |].
    pose proof (length_filter (fun n0 => StdList.value n0 <> StdList.value n) rest).
    cbn [length] in Hsz. lia.
Qed.

Lemma CloseAllDevices_empties st :
  StdList.nodes (active_handles (CloseAllDevices st)) = [].
Proof.
  unfold CloseAllDevices. cbn [unlock set_lock active_handles].
  apply close_front_empties. reflexivity.
Qed.

End Refresh.

(** C2. A first [RefreshEndpoints] on a freshly loaded library opens the
    two devices of the system and returns 2.  A second one, with these
    two devices active and both ready to be opened again, does not close
    every device and reopen them: [CloseDevice] erases the list node
    under the iterator of the closing loop, the increment of that
    iterator is undefined, and no count is returned.  The closing loop of
    [CloseAllDevices] followed by [OpenAllDevices] leaves two devices
    active. *)
Theorem refresh_invalidates_its_iterator :
  MidiJackRefreshEndpoints Scenario.unplugged = Returns (2, Scenario.plugged) /\
  MidiJackCountEndpoints Scenario.plugged = (2, Scenario.plugged) /\
  RefreshDevices Scenario.plugged = Undefined /\
  MidiJackRefreshEndpoints Scenario.plugged = Undefined /\
  fst (MidiJackCountEndpoints (OpenAllDevices (CloseAllDevices Scenario.plugged))) = 2.
Proof.
  assert (Hr : RefreshDevices Scenario.plugged = Undefined).
  { apply RefreshDevices_nonempty.
    - apply StdList_wf_OpenAllDevices, StdList_wf_new.
    - vm_compute. discriminate. }
  split; [reflexivity |]. split; [reflexivity |]. split; [exact Hr |]. split.
  - unfold MidiJackRefreshEndpoints. now rewrite Hr.
  - vm_compute. reflexivity.
Qed.

(** C3. The lookups do not preserve the registry: on a freshly loaded
    library, whose registry is consistent, [GetEndpointName] of an
    endpoint identifier that is not registered adds an entry to the
    endpoint map, and a data event for a handle that is not registered
    adds an entry to the handle map; neither state is consistent. *)
Theorem lookups_leave_partial_entries :
  let st := Scenario.bare in
  let st1 := snd (MidiJackGetEndpointName 5 st) in
  let st2 := MidiInProc 7 MIM_DATA 0 0x403C90 0 st in
  registry_consistent st /\
  endpoint_id_to_handle st = ∅ /\
  endpoint_id_to_handle st1 = {[ 5 := NULL ]} /\
  (registry_consistent st1 -> False) /\
  handle_to_device_info st = ∅ /\
  handle_to_device_info st2 = {[ 7 := DeviceInfo_zero ]} /\
  (registry_consistent st2 -> False).
Proof.
  cbv zeta. split.
  { intros h. right. repeat split.
    - intros e. cbn. rewrite lookup_empty. discriminate.
    - cbn. apply not_elem_of_nil. }
  split; [reflexivity |]. split; [reflexivity |]. split.
  { intros Hc. destruct (Hc NULL) as [(Hs & _) | (_ & He & _)].
    - destruct Hs as [info Hinfo]. vm_compute in Hinfo. discriminate.
    - apply (He 5). reflexivity. }
  split; [reflexivity |]. split; [reflexivity |].
  intros Hc. destruct (Hc 7) as [(_ & _ & Ha) | (Hm & _)].
  - cbn in Ha. now apply not_elem_of_nil in Ha.
  - vm_compute in Hm. discriminate.
Qed.

(** C9, as amended. [CloseDevice] of a handle that is in none of the
    three views of the registry leaves the handle map and the active
    handles exactly as they were, and leaves every entry of the endpoint
    map for an endpoint identifier other than 0 as it was. *)
Theorem close_of_unregistered_handle_keeps_the_rest `{W : WinMM}
    (st : State W) (h : Z) :
  fully_absent st h ->
  let st' := CloseDevice h st in
  handle_to_device_info st' = handle_to_device_info st /\
  active_handles st' = active_handles st /\
  (forall e, e <> 0 -> endpoint_id_to_handle st' !! e = endpoint_id_to_handle st !! e).
Proof.
  intros (Hm & _ & Ha) st'. subst st'.
  rewrite (CloseDevice_unregistered st h Hm Ha). cbn.
  repeat split. intros e He. now apply lookup_delete_ne.
Qed.

(** C9 as it was stated fails: [CloseDevice] of a handle that is not
    registered erases the entry of the endpoint identifier 0 from the
    endpoint map.  After a name lookup for the identifier 0 it erases the
    entry the lookup left; with a registered device whose endpoint
    identifier is 0 it erases that device's entry, and the device stays
    in the handle map and among the active handles. *)
Lemma close_of_unregistered_handle_erases_endpoint_zero :
  let st := snd (MidiJackGetEndpointName 0 Scenario.bare) in
  let st' := CloseDevice 7 st in
  let wide' := CloseDevice 7 Scenario.wide in
  fully_absent st 7 /\
  endpoint_id_to_handle st = {[ 0 := NULL ]} /\
  endpoint_id_to_handle st' = ∅ /\
  endpoint_id_to_handle st' <> endpoint_id_to_handle st /\
  fully_absent Scenario.wide 7 /\
  fully_registered Scenario.wide (2 ^ 32) /\
  endpoint_id_to_handle Scenario.wide = {[ 0 := 2 ^ 32 ]} /\
  endpoint_id_to_handle wide' = ∅ /\
  endpoint_id_to_handle wide' <> endpoint_id_to_handle Scenario.wide /\
  is_Some (handle_to_device_info wide' !! (2 ^ 32)) /\
  StdList.values (active_handles wide') = [2 ^ 32].
Proof.
  cbv zeta.
  assert (Habs : forall v : Z,
            v <> 7 -> forall e, ({[ 0 := v ]} : gmap Z Z) !! e <> Some 7).
  { intros v Hv e. destruct (decide (e = 0)) as [-> | Hne].
    - rewrite lookup_singleton_eq. congruence.
    - rewrite lookup_singleton_ne by congruence. discriminate. }
  assert (Hdiff : forall v : Z, (∅ : gmap Z Z) <> {[ 0 := v ]}).
  { intros v Heq. apply (f_equal (fun m : gmap Z Z => m !! 0)) in Heq.
    rewrite lookup_empty, lookup_singleton_eq in Heq. discriminate. }
  split.
  { split; [reflexivity |]. split; [apply Habs; discriminate |].
    apply not_elem_of_nil. }
  split; [reflexivity |]. split; [reflexivity |]. split; [apply (Hdiff NULL) |].
  split.
  { split; [reflexivity |]. split; [apply Habs; discriminate |].
    vm_compute. intros Hin. apply list_elem_of_singleton in Hin. discriminate. }
  split.
  { split; [| split].
    - vm_compute. eauto.
    - exists 0. reflexivity.
    - vm_compute. apply list_elem_of_here. }
  split; [reflexivity |]. split; [reflexivity |]. split; [apply (Hdiff (2 ^ 32)) |].
  split.
  - vm_compute. eauto.
  - reflexivity.
Qed.

(** ** Instances on the scripted operating system *)

(** The round trip on a note-on message of endpoint [0xDEADBEEF]. *)
Lemma codec_round_trip_witness :
  decode (MidiMessage.Encode64Bit (MidiMessage.Build 0xDEADBEEF 0x90 0x3C 0x7F)) =
    (0xDEADBEEF, 0x90, 0x3C, 0x7F).
Proof.
  apply (codec_round_trip 0xDEADBEEF 0x90 0x3C 0x7F); lia.
Defined.

(** Three data events of the two open devices, dequeued in order. *)
Lemma queue_fifo_witness :
  let st := Scenario.plugged in
  let st1 := MidiInProc 100 MIM_DATA 0 0x7F3C90 0 st in
  let st2 := MidiInProc 200 MIM_DATA 0 0x003C80 0 st1 in
  let st3 := MidiInProc 100 MIM_DATA 0 0x4007B0 0 st2 in
  let M1 := message_of st 100 0x7F3C90 in
  let M2 := message_of st1 200 0x003C80 in
  let M3 := message_of st2 100 0x4007B0 in
  let d1 := MidiJackDequeueIncomingData st3 in
  let d2 := MidiJackDequeueIncomingData (snd d1) in
  let d3 := MidiJackDequeueIncomingData (snd d2) in
  let d4 := MidiJackDequeueIncomingData (snd d3) in
  message_queue st3 = [M1; M2; M3] /\
  fst d1 = MidiMessage.Encode64Bit M1 /\
  fst d2 = MidiMessage.Encode64Bit M2 /\
  fst d3 = MidiMessage.Encode64Bit M3 /\
  fst d4 = 0 /\
  message_queue (snd d4) = [].
Proof.
  exact (queue_fifo Scenario.plugged 100 200 100 0 0 0
           0x7F3C90 0x003C80 0x4007B0 0 0 0 eq_refl).
Defined.

(** A data event of the handle 7, which no device holds. *)
Lemma callback_on_unregistered_handle_witness :
  handle_to_device_info Scenario.plugged !! 7 = None /\
  message_queue (MidiInProc 7 MIM_DATA 0 0x7F3C90 0 Scenario.plugged) =
    [MidiMessage.make 0 (u32 0x7F3C90)] /\
  fst (MidiJackDequeueIncomingData
         (MidiInProc 7 MIM_DATA 0 0x7F3C90 0 Scenario.plugged)) =
    MidiMessage.Encode64Bit (MidiMessage.make 0 (u32 0x7F3C90)).
Proof.
  pose proof (callback_on_unregistered_handle Scenario.plugged 7 0 0x7F3C90 0 eq_refl)
    as (_ & Hq & _ & _ & Hd & _).
  split; [reflexivity |]. split; [exact Hq | exact (Hd eq_refl)].
Defined.



(** The second device of [flaky] does not start: it is closed again and
    skipped, and the third device is opened. *)
Lemma failed_open_is_skipped_witness :
  let st := Scenario.flaky_first in
  let st' := OpenDevice 1 st in
  (handle_to_device_info st' = handle_to_device_info st /\
   endpoint_id_to_handle st' = endpoint_id_to_handle st /\
   active_handles st' = active_handles st /\
   message_queue st' = message_queue st /\
   os_state st' = os_state st /\
   open_range [1; 2] st = open_range [2] (set_os (os_state st) st)) /\
  Script.open_handles (os_state st') = [100] /\
  StdList.values (active_handles (open_range [1; 2] st)) = [100; 300].
Proof.
  split; [| split; reflexivity].
  refine (@failed_open_is_skipped Script.winmm Scenario.flaky_first 1 _ [2] _).
  refine (@open_fails_start Script.winmm 1 _ 1 200
            {| Script.devices := Script.devices Scenario.flaky;
               Script.open_handles := [100; 200] |}
            {| Script.devices := Script.devices Scenario.flaky;
               Script.open_handles := [100; 200] |} _ _ _).
  - reflexivity.
  - reflexivity.
  - discriminate.
Defined.

(** Closing the handle 7, which no device holds, with two devices open. *)
Lemma close_of_unregistered_handle_keeps_the_rest_witness :
  let st' := CloseDevice 7 Scenario.plugged in
  handle_to_device_info st' = handle_to_device_info Scenario.plugged /\
  active_handles st' = active_handles Scenario.plugged /\
  (forall e, e <> 0 ->
     endpoint_id_to_handle st' !! e = endpoint_id_to_handle Scenario.plugged !! e).
Proof.
  refine (@close_of_unregistered_handle_keeps_the_rest Script.winmm
            Scenario.plugged 7 _).
  split; [reflexivity |]. split.
  - intros e He.
    change (endpoint_id_to_handle Scenario.plugged)
      with (<[200 := 200]> (<[100 := 100]> (∅ : gmap Z Z))) in He.
    apply lookup_insert_Some in He as [[_ He] | [_ He]]; [discriminate |].
    apply lookup_insert_Some in He as [[_ He] | [_ He]]; [discriminate |].
    rewrite lookup_empty in He. discriminate.
  - change (StdList.values (active_handles Scenario.plugged)) with [100; 200].
    intros Hin. apply elem_of_cons in Hin as [He | Hin]; [discriminate |].
    apply list_elem_of_singleton in Hin. discriminate.
Defined.

(** ** More on the codec *)

Section CodecArithmetic.

(** Below [2^k], or-ing with a value shifted by [k] is adding it. *)
Lemma lor_shiftl_add (a b k : Z) :
  0 <= a < 2 ^ k -> 0 <= k -> Z.lor a (Z.shiftl b k) = a + b * 2 ^ k.
Proof.
  intros Ha Hk. rewrite <- Z.shiftl_mul_pow2 by lia.
  assert (Hdisj : Z.land a (Z.shiftl b k) = 0).
  { apply Z.bits_inj'. intros n Hn. rewrite Z.land_spec, Z.bits_0.
    destruct (Z.lt_ge_cases n k) as [Hlt | Hge].
    - rewrite Z.shiftl_spec_low by lia. apply andb_false_r.
    - rewrite (testbit_above a k n) by lia. reflexivity. }
  rewrite <- Z.lxor_lor by assumption.
  symmetry. now apply Z.add_nocarry_lxor.
Qed.

(** The packed value as a sum of the fields scaled to their positions. *)
Lemma Encode64Bit_sum (m : MidiMessage.t) :
  MidiMessage.in_range m ->
  MidiMessage.Encode64Bit m =
    MidiMessage.source_ m + MidiMessage.status_ m * 2 ^ 32 +
    MidiMessage.data1_ m * 2 ^ 40 + MidiMessage.data2_ m * 2 ^ 48.
Proof.
  intros Hr. rewrite (Encode64Bit_layout m Hr).
  destruct Hr as (Hs & Hst & Hd1 & Hd2).
  rewrite (lor_shiftl_add (MidiMessage.source_ m)) by lia.
  rewrite (lor_shiftl_add _ (MidiMessage.data1_ m)) by lia.
  rewrite (lor_shiftl_add _ (MidiMessage.data2_ m)) by lia.
  reflexivity.
Qed.

(** The three bytes of the constructor are the low 24 bits of the raw
    word. *)
Lemma bytes_of_raw (raw : Z) :
  u8 raw + u8 (Z.shiftr raw 8) * 2 ^ 8 + u8 (Z.shiftr raw 16) * 2 ^ 16 =
  raw mod 2 ^ 24.
Proof.
  unfold u8. rewrite !Z.shiftr_div_pow2 by lia.
  change (2 ^ 24) with (2 ^ 8 * (2 ^ 8 * 2 ^ 8)).
  rewrite !Z.rem_mul_r by lia.
  change (2 ^ 16) with (2 ^ 8 * 2 ^ 8). rewrite <- Z.div_div by lia.
  ring.
Qed.

End CodecArithmetic.

(** X1. The packed value of a message whose fields are within their
    types lies in [0, 2^56): the bits 56 to 63 are clear. *)
Theorem Encode64Bit_below_2_56 (m : MidiMessage.t) :
  MidiMessage.in_range m ->
  0 <= MidiMessage.Encode64Bit m < 2 ^ 56.
Proof.
  intros Hr. rewrite (Encode64Bit_sum m Hr).
  destruct Hr as (Hs & Hst & Hd1 & Hd2). lia.
Qed.

(** X2. Two messages whose fields are within their types and that have
    the same packed value are the same message. *)
Theorem Encode64Bit_injective (m1 m2 : MidiMessage.t) :
  MidiMessage.in_range m1 -> MidiMessage.in_range m2 ->
  MidiMessage.Encode64Bit m1 = MidiMessage.Encode64Bit m2 -> m1 = m2.
Proof.
  intros H1 H2 He.
  pose proof (decode_Encode64Bit m1 H1) as D1.
  pose proof (decode_Encode64Bit m2 H2) as D2.
  rewrite He, D2 in D1. destruct m1, m2; cbn in D1. congruence.
Qed.

(** X3. The packed value of a message whose fields are within their
    types is 0, the value returned for an empty queue, only when the
    endpoint identifier, the status and both data bytes are 0. *)
Theorem Encode64Bit_zero_iff (m : MidiMessage.t) :
  MidiMessage.in_range m ->
  (MidiMessage.Encode64Bit m = 0 <-> m = MidiMessage.Build 0 0 0 0).
Proof.
  intros Hr. rewrite (Encode64Bit_sum m Hr).
  destruct Hr as (Hs & Hst & Hd1 & Hd2). destruct m as [s st d1 d2]; cbn in *.
  split.
  - intros H. f_equal; lia.
  - intros [= -> -> -> ->]. reflexivity.
Qed.

(** X4. The message built from an endpoint identifier and a raw word
    packs to the identifier plus the low 24 bits of the word shifted by
    32: the top byte of the word is dropped. *)
Theorem Encode64Bit_of_raw (source raw : Z) :
  0 <= source < 2 ^ 32 ->
  MidiMessage.Encode64Bit (MidiMessage.make source raw) =
    source + (raw mod 2 ^ 24) * 2 ^ 32.
Proof.
  intros Hs. rewrite (Encode64Bit_sum _ (make_in_range source raw Hs)).
  rewrite <- bytes_of_raw. cbn [MidiMessage.make MidiMessage.source_
    MidiMessage.status_ MidiMessage.data1_ MidiMessage.data2_]. ring.
Qed.

(** X5. Packing the four fields the client extracts from a 64-bit value
    gives back the low 56 bits of the value. *)
Theorem Encode64Bit_of_decode (msg : Z) :
  MidiMessage.Encode64Bit
    (MidiMessage.Build (decode_source msg) (decode_status msg)
                       (decode_data1 msg) (decode_data2 msg)) =
  msg mod 2 ^ 56.
Proof.
  assert (Hf : forall k w, 0 <= k -> 0 < w ->
            Z.land (Z.shiftr msg k) (Z.ones w) = (msg / 2 ^ k) mod 2 ^ w).
  { intros k w Hk Hw. rewrite Z.land_ones, Z.shiftr_div_pow2 by lia. reflexivity. }
  assert (Hs : decode_source msg = msg mod 2 ^ 32).
  { unfold decode_source, u32. change 0xFFFFFFFF with (Z.ones 32).
    rewrite Hf by lia. rewrite Z.mod_mod by lia. now rewrite Z.pow_0_r, Z.div_1_r. }
  assert (Hb : forall k, 0 <= k ->
            u8 (Z.land (Z.shiftr msg k) 0xFF) = (msg / 2 ^ k) mod 2 ^ 8).
  { intros k Hk. unfold u8. change 0xFF with (Z.ones 8).
    rewrite Hf by lia. now rewrite Z.mod_mod by lia. }
  assert (Hst : decode_status msg = (msg / 2 ^ 32) mod 2 ^ 8) by (apply Hb; lia).
  assert (Hd1 : decode_data1 msg = (msg / 2 ^ 40) mod 2 ^ 8) by (apply Hb; lia).
  assert (Hd2 : decode_data2 msg = (msg / 2 ^ 48) mod 2 ^ 8) by (apply Hb; lia).
  rewrite Encode64Bit_sum.
  2:{ unfold MidiMessage.in_range. cbn. rewrite Hs, Hst, Hd1, Hd2.
      repeat split; try (apply Z.mod_pos_bound; lia). }
  cbn. rewrite Hs, Hst, Hd1, Hd2.
  change (2 ^ 56) with (2 ^ 32 * (2 ^ 8 * (2 ^ 8 * 2 ^ 8))).
  rewrite !Z.rem_mul_r by lia.
  change (2 ^ 40) with (2 ^ 32 * 2 ^ 8). change (2 ^ 48) with (2 ^ 32 * 2 ^ 8 * 2 ^ 8).
  rewrite <- !Z.div_div by lia. ring.
Qed.

(** ** More on the queue *)

Section QueueMore.

Context {W : WinMM}.
Implicit Types st : State W.

Lemma set_queue_same st q : message_queue st = q -> set_queue q st = st.
Proof. intros <-. now destruct st. Qed.

Lemma set_info_same st m : handle_to_device_info st = m -> set_info m st = st.
Proof. intros <-. now destruct st. Qed.

Lemma set_endpoints_same st m : endpoint_id_to_handle st = m -> set_endpoints m st = st.
Proof. intros <-. now destruct st. Qed.

Lemma dequeue_times_empty k st :
  message_queue st = [] -> dequeue_times k st = (repeat 0 k, st).
Proof.
  intros Hq. induction k as [| k IH]; [reflexivity |].
  cbn [dequeue_times repeat]. rewrite (Dequeue_empty st Hq). now rewrite IH.
Qed.

Lemma dequeue_times_queue q : forall k st,
  message_queue st = q ->
  dequeue_times (length q + k) st =
    (map MidiMessage.Encode64Bit q ++ repeat 0 k, set_queue [] st).
Proof.
  induction q as [| m rest IH]; intros k st Hq.
  - cbn [length Nat.add map app]. rewrite (dequeue_times_empty k st Hq).
    now rewrite (set_queue_same st [] Hq).
  - cbn [length Nat.add dequeue_times]. rewrite (Dequeue_front st m rest Hq).
    rewrite (IH k (set_queue rest st) eq_refl). now destruct st.
Qed.

End QueueMore.

(** X6. From any state, as many calls of [DequeueIncomingData] as there
    are messages in the queue return the packed values of the messages
    in queue order; every further call returns 0; at the end only the
    queue has changed, and it is empty. *)
Theorem dequeue_all_in_order `{W : WinMM} (st : State W) (k : nat) :
  dequeue_times (length (message_queue st) + k) st =
    (map MidiMessage.Encode64Bit (message_queue st) ++ repeat 0 k,
     set_queue [] st).
Proof. now apply dequeue_times_queue. Qed.

(** X7. Whatever the event, the callback leaves the endpoint map, the
    active handles, the lock and the system as they were; it keeps every
    entry of the handle map, and keeps the queue but for at most one
    message appended at its end. *)
Theorem callback_frame `{W : WinMM} (st : State W) (h msg inst p1 p2 : Z) :
  let st' := MidiInProc h msg inst p1 p2 st in
  endpoint_id_to_handle st' = endpoint_id_to_handle st /\
  active_handles st' = active_handles st /\
  resource_lock st' = resource_lock st /\
  os_state st' = os_state st /\
  handle_to_device_info st ⊆ handle_to_device_info st' /\
  (message_queue st' = message_queue st \/
   exists m, message_queue st' = message_queue st ++ [m]).
Proof.
  cbv zeta. unfold MidiInProc. destruct (msg =? MIM_DATA).
  - unfold subscript.
    destruct (handle_to_device_info st !! h) as [info |] eqn:Hl; cbn;
      repeat split; eauto.
    now apply insert_subseteq.
  - repeat split; eauto.
Qed.

(** X8. A message received from a registered device stays in the queue
    when the device is closed: it is dequeued afterwards with the
    endpoint identifier of the device, for which the name lookup now
    returns "unknown". *)
Theorem message_outlives_its_device `{W : WinMM} (st : State W)
    (h inst p1 p2 : Z) (info : DeviceInfo) :
  handle_to_device_info st !! h = Some info ->
  0 <= endpointId info < 2 ^ 32 ->
  handle_to_device_info st !! NULL = None ->
  message_queue st = [] ->
  let st1 := MidiInProc h MIM_DATA inst p1 p2 st in
  let st2 := CloseDevice h st1 in
  let d := MidiJackDequeueIncomingData st2 in
  let n := MidiJackGetEndpointName (decode_source (fst d)) (snd d) in
  fst d = MidiMessage.Encode64Bit (MidiMessage.make (endpointId info) (u32 p1)) /\
  decode_source (fst d) = endpointId info /\
  fst n = "unknown"%string.
Proof.
  intros Hinfo Hid Hnull Hq st1 st2 d n.
  assert (Hst1 : st1 = set_queue [MidiMessage.make (endpointId info) (u32 p1)] st).
  { subst st1. rewrite MidiInProc_data. unfold message_of.
    rewrite (subscript_present _ _ _ _ Hinfo), Hq. cbn [fst snd app].
    now rewrite (set_info_same st _ eq_refl). }
  assert (Hst2 : st2 = CloseDevice h st1) by reflexivity.
  rewrite CloseDevice_state, Hst1 in Hst2. cbn in Hst2. rewrite Hinfo in Hst2.
  cbn in Hst2.
  assert (Hd : d = (MidiMessage.Encode64Bit (MidiMessage.make (endpointId info) (u32 p1)),
                    set_queue [] st2)).
  { subst d. apply Dequeue_front. now rewrite Hst2. }
  assert (Hsrc : decode_source (fst d) = endpointId info).
  { rewrite Hd. cbn [fst].
    pose proof (decode_Encode64Bit _ (make_in_range (endpointId info) (u32 p1) Hid)) as D.
    apply (f_equal (fun t => fst (fst (fst t)))) in D. exact D. }
  split; [now rewrite Hd |]. split; [exact Hsrc |].
  subst n. rewrite Hsrc, Hd. cbn [snd].
  rewrite GetEndpointName_absent.
  - cbn [fst]. apply c_str_unknown. rewrite Hst2. cbn.
    rewrite lookup_delete. now destruct (decide (h = NULL)).
  - rewrite Hst2. cbn. apply lookup_delete_eq.
Qed.

(** ** Walking the active list *)

Section Iterators.

Implicit Types ns pre post : list StdList.node.

Lemma find_at pre post n :
  StdList.addr n ∉ map StdList.addr pre ->
  List.find (fun x => Nat.eqb (StdList.addr x) (StdList.addr n)) (pre ++ n :: post) =
    Some n.
Proof.
  induction pre as [| p pre IH]; intros Hn; cbn [app List.find].
  - now rewrite Nat.eqb_refl.
  - cbn [map] in Hn. apply not_elem_of_cons in Hn as [Hne Hn].
    destruct (Nat.eqb_spec (StdList.addr p) (StdList.addr n)); [congruence |].
    now apply IH.
Qed.

Lemma successor_at pre post n :
  StdList.addr n ∉ map StdList.addr pre ->
  StdList.successor (StdList.addr n) (pre ++ n :: post) = Some (StdList.first post).
Proof.
  induction pre as [| p pre IH]; intros Hn; cbn [app StdList.successor].
  - now rewrite Nat.eqb_refl.
  - cbn [map] in Hn. apply not_elem_of_cons in Hn as [Hne Hn].
    destruct (Nat.eqb_spec (StdList.addr p) (StdList.addr n)); [congruence |].
    now apply IH.
Qed.

(** A node of a list with distinct addresses, and the nodes before it. *)
Lemma node_split ns j n :
  NoDup (map StdList.addr ns) -> ns !! j = Some n ->
  ns = take j ns ++ n :: drop (S j) ns /\
  StdList.addr n ∉ map StdList.addr (take j ns).
Proof.
  intros Hnd Hj. pose proof (take_drop_middle ns j n Hj) as Hs. split; [now symmetry |].
  rewrite <- Hs, map_app in Hnd. apply NoDup_app in Hnd as (_ & Hd & _).
  intros Hin. apply (Hd _ Hin). cbn [map]. apply list_elem_of_here.
Qed.

Lemma first_drop ns j n :
  ns !! j = Some n -> StdList.first (drop j ns) = StdList.At (StdList.addr n).
Proof. intros Hj. now rewrite (drop_S ns n j Hj). Qed.

Lemma first_drop_end ns j :
  (length ns <= j)%nat -> StdList.first (drop j ns) = StdList.End.
Proof. intros Hj. now rewrite drop_ge. Qed.

Context {W : WinMM}.

(** [i] increments from the position [j] reach the position [j + i]. *)
Lemma advance_drop ns f i : forall j,
  NoDup (map StdList.addr ns) -> (j + i <= length ns)%nat ->
  advance i (StdList.first (drop j ns)) (StdList.Build ns f) =
    Some (StdList.first (drop (j + i) ns)).
Proof.
  induction i as [| i IH]; intros j Hnd Hle.
  - now rewrite Nat.add_0_r.
  - destruct (ns !! j) as [n |] eqn:Hj.
    2:{ apply lookup_ge_None in Hj. lia. }
    destruct (node_split ns j n Hnd Hj) as [Hs Hn].
    cbn [advance]. rewrite (first_drop ns j n Hj).
    cbn [StdList.next StdList.nodes]. rewrite Hs at 1.
    rewrite (successor_at _ _ n Hn).
    rewrite (IH (S j) Hnd) by lia. f_equal. f_equal. f_equal. lia.
Qed.

(** More increments than there are nodes left are undefined. *)
Lemma advance_beyond ns f i : forall j,
  NoDup (map StdList.addr ns) -> (j <= length ns < j + i)%nat ->
  advance i (StdList.first (drop j ns)) (StdList.Build ns f) = None.
Proof.
  induction i as [| i IH]; intros j Hnd Hle; [lia |].
  cbn [advance]. destruct (ns !! j) as [n |] eqn:Hj.
  - destruct (node_split ns j n Hnd Hj) as [Hs Hn].
    rewrite (first_drop ns j n Hj).
    cbn [StdList.next StdList.nodes]. rewrite Hs at 1.
    rewrite (successor_at _ _ n Hn). apply lookup_lt_Some in Hj.
    apply (IH (S j) Hnd). lia.
  - apply lookup_ge_None in Hj. now rewrite (first_drop_end ns j Hj).
Qed.

Lemma deref_at ns f j n :
  NoDup (map StdList.addr ns) -> ns !! j = Some n ->
  StdList.deref (StdList.At (StdList.addr n)) (StdList.Build ns f) =
    Some (StdList.value n).
Proof.
  intros Hnd Hj. destruct (node_split ns j n Hnd Hj) as [Hs Hn].
  cbn [StdList.deref StdList.nodes]. rewrite Hs at 1.
  now rewrite (find_at _ _ n Hn).
Qed.

(** The call with an index within the list, in terms of [operator[]]. *)
Lemma GetEndpointIDAtIndex_at (st : State W) (index h : Z) :
  StdList_wf (active_handles st) ->
  0 <= index ->
  StdList.values (active_handles st) !! Z.to_nat index = Some h ->
  MidiJackGetEndpointIDAtIndex index st =
    Returns (endpointId (fst (subscript DeviceInfo_zero h (handle_to_device_info st))),
             set_info (snd (subscript DeviceInfo_zero h (handle_to_device_info st))) st).
Proof.
  intros [Hnd _] Hi Hh. unfold MidiJackGetEndpointIDAtIndex.
  destruct (Z.ltb_spec index 0); [lia |].
  unfold StdList.values in Hh. rewrite list_lookup_fmap in Hh.
  destruct (StdList.nodes (active_handles st) !! Z.to_nat index) as [n |] eqn:Hn;
    [| discriminate].
  cbn in Hh. injection Hh as <-.
  unfold StdList.begin. destruct (active_handles st) as [ns f]. cbn [StdList.nodes] in *.
  pose proof (advance_drop ns f (Z.to_nat index) 0 Hnd) as Ha.
  rewrite drop_0 in Ha. rewrite Ha by (apply lookup_lt_Some in Hn; lia).
  cbn [Nat.add]. rewrite (first_drop ns _ n Hn), (deref_at ns f _ n Hnd Hn).
  now destruct (subscript DeviceInfo_zero (StdList.value n) (handle_to_device_info st)).
Qed.

End Iterators.

(** X9. With the nodes of the active list distinct, the identifier at an
    index within the list is the endpoint identifier stored for the
    handle at that position, and the call leaves the state as it was. *)
Theorem id_at_index_in_range `{W : WinMM} (st : State W) (index h : Z)
    (info : DeviceInfo) :
  StdList_wf (active_handles st) ->
  0 <= index ->
  StdList.values (active_handles st) !! Z.to_nat index = Some h ->
  handle_to_device_info st !! h = Some info ->
  MidiJackGetEndpointIDAtIndex index st = Returns (endpointId info, st).
Proof.
  intros Hwf Hi Hh Hinfo.
  rewrite (GetEndpointIDAtIndex_at st index h Hwf Hi Hh).
  rewrite (subscript_present _ _ _ _ Hinfo). cbn [fst snd].
  now rewrite (set_info_same st _ eq_refl).
Qed.

(** X10. With the nodes of the active list distinct, the identifier at
    a negative index, or at an index that is not below the number of
    active handles, is undefined. *)
Theorem id_at_index_out_of_range `{W : WinMM} (st : State W) (index : Z) :
  StdList_wf (active_handles st) ->
  index < 0 \/ Z.of_nat (StdList.size (active_handles st)) <= index ->
  MidiJackGetEndpointIDAtIndex index st = Undefined.
Proof.
  intros [Hnd _] Hout. unfold MidiJackGetEndpointIDAtIndex.
  destruct (Z.ltb_spec index 0) as [| Hge]; [reflexivity |].
  destruct Hout as [| Hout]; [lia |].
  unfold StdList.begin, StdList.size in *.
  destruct (active_handles st) as [ns f]. cbn [StdList.nodes] in *.
  destruct (decide (Z.to_nat index = length ns)) as [He | Hne].
  - pose proof (advance_drop ns f (Z.to_nat index) 0 Hnd) as Ha.
    rewrite drop_0 in Ha. rewrite Ha by lia. cbn [Nat.add].
    now rewrite first_drop_end by lia.
  - pose proof (advance_beyond ns f (Z.to_nat index) 0 Hnd) as Ha.
    rewrite drop_0 in Ha. now rewrite Ha by lia.
Qed.

(** ** What the operations keep *)

Section Soundness.

Context {W : WinMM}.
Implicit Types st : State W.

Lemma registry_ok_fields st st' :
  handle_to_device_info st' = handle_to_device_info st ->
  message_queue st' = message_queue st ->
  active_handles st' = active_handles st ->
  registry_ok st -> registry_ok st'.
Proof.
  intros Hm Hq Ha [Hl Hact Hids Hqu].
  split; rewrite ?Hm, ?Hq, ?Ha; assumption.
Qed.

Lemma registry_ok_initial (o : OS) : registry_ok (initial o).
Proof.
  split; cbn.
  - apply StdList_wf_new.
  - intros h Hin. now apply not_elem_of_nil in Hin.
  - intros h info Hl. rewrite lookup_empty in Hl. discriminate.
  - constructor.
Qed.

Lemma endpoint_of_range h : 0 <= endpoint_of h < 2 ^ 32.
Proof. unfold endpoint_of, u32. apply Z.mod_pos_bound. lia. Qed.

(** [OpenDevice] either registers one handle or changes the system
    state alone. *)
Lemma OpenDevice_cases st deviceId :
  (exists o, OpenDevice deviceId st = set_os o st) \/
  (exists h caps o,
     OpenDevice deviceId st =
       {| handle_to_device_info :=
            <[h := {| handle := h; deviceId := deviceId;
                      endpointId := endpoint_of h;
                      deviceCaps := caps |}]> (handle_to_device_info st);
          endpoint_id_to_handle :=
            <[endpoint_of h := h]> (endpoint_id_to_handle st);
          message_queue := message_queue st;
          active_handles := StdList.push_back h (active_handles st);
          resource_lock := resource_lock st;
          os_state := o |}).
Proof.
  unfold OpenDevice.
  destruct (midiInOpen deviceId (os_state st)) as [[r h] o]. cbn.
  destruct (r =? MMSYSERR_NOERROR); [| left; eauto].
  destruct (midiInStart h o) as [r2 o2]. cbn.
  destruct (r2 =? MMSYSERR_NOERROR); [| left; eauto].
  destruct (midiInGetDevCaps deviceId o2) as [[r3 caps] o3]. cbn.
  destruct (r3 =? MMSYSERR_NOERROR); [| left; eauto].
  right. exists h, caps, o3. reflexivity.
Qed.

Lemma registry_ok_OpenDevice st deviceId :
  registry_ok st -> registry_ok (OpenDevice deviceId st).
Proof.
  intros Hok. destruct (OpenDevice_cases st deviceId) as [[o ->] | (h & caps & o & ->)].
  - now apply (registry_ok_fields st).
  - destruct Hok as [Hl Hact Hids Hqu].
    split; cbn [active_handles handle_to_device_info message_queue].
    + now apply StdList_wf_push_back.
    + intros h' Hin. rewrite push_back_values, elem_of_app, list_elem_of_singleton in Hin.
      destruct (decide (h' = h)) as [-> | Hne].
      * rewrite lookup_insert_eq. eauto.
      * rewrite lookup_insert_ne by congruence. destruct Hin; [auto | contradiction].
    + intros h' info. destruct (decide (h' = h)) as [-> | Hne].
      * rewrite lookup_insert_eq. intros [= <-]. cbn. apply endpoint_of_range.
      * rewrite lookup_insert_ne by congruence. apply Hids.
    + assumption.
Qed.

Lemma registry_ok_CloseDevice st h :
  registry_ok st -> registry_ok (CloseDevice h st).
Proof.
  intros [Hl Hact Hids Hqu]. rewrite CloseDevice_state.
  split; cbn [active_handles handle_to_device_info message_queue].
  - now apply StdList_wf_remove.
  - intros h' Hin. rewrite remove_values in Hin.
    apply list_elem_of_filter in Hin as [Hne Hin].
    rewrite lookup_delete_ne by congruence. auto.
  - intros h' info Hl'. apply lookup_delete_Some in Hl' as [_ Hl']. eauto.
  - assumption.
Qed.

Lemma registry_ok_open_range ids st :
  registry_ok st -> registry_ok (open_range ids st).
Proof.
  revert st. induction ids as [| id ids IH]; intros st Hok; [assumption |].
  apply IH. now apply registry_ok_OpenDevice.
Qed.

Lemma registry_ok_OpenAllDevices st :
  registry_ok st -> registry_ok (OpenAllDevices st).
Proof.
  intros Hok. unfold OpenAllDevices.
  destruct (midiInGetNumDevs (os_state st)) as [n o].
  apply registry_ok_open_range. now apply (registry_ok_fields st).
Qed.

Lemma registry_ok_subscript st h :
  registry_ok st ->
  registry_ok (set_info (snd (subscript DeviceInfo_zero h (handle_to_device_info st))) st).
Proof.
  intros [Hl Hact Hids Hqu]. unfold subscript.
  destruct (handle_to_device_info st !! h) as [info |] eqn:Hh; cbn [snd].
  - now rewrite (set_info_same st _ eq_refl).
  - split; cbn; try assumption.
    + intros h' Hin. destruct (Hact h' Hin) as (info & Hi & Hrest).
      rewrite lookup_insert_ne by congruence. eauto.
    + intros h' info. destruct (decide (h' = h)) as [-> | Hne].
      * rewrite lookup_insert_eq. intros [= <-]. cbn. lia.
      * rewrite lookup_insert_ne by congruence. apply Hids.
Qed.

Lemma registry_ok_MidiInProc st h msg inst p1 p2 :
  registry_ok st -> registry_ok (MidiInProc h msg inst p1 p2 st).
Proof.
  intros Hok. destruct (Z.eq_dec msg MIM_DATA) as [-> | Hne].
  2:{ now rewrite MidiInProc_other. }
  rewrite MidiInProc_data.
  pose proof (registry_ok_subscript st h Hok) as [Hl Hact Hids Hqu].
  split; try assumption. cbn in *.
  apply Forall_app. split; [now destruct Hok |].
  apply Forall_singleton. unfold message_of. apply make_in_range.
  unfold subscript. destruct (handle_to_device_info st !! h) as [info |] eqn:Hh; cbn.
  - destruct Hok as [_ _ Hids' _]. eauto.
  - lia.
Qed.

Lemma registry_ok_GetEndpointName st id :
  registry_ok st -> registry_ok (snd (MidiJackGetEndpointName id st)).
Proof.
  intros Hok. unfold MidiJackGetEndpointName.
  destruct (subscript NULL id (endpoint_id_to_handle st)) as [h m].
  now apply (registry_ok_fields st).
Qed.

Lemma registry_ok_Dequeue st :
  registry_ok st -> registry_ok (snd (MidiJackDequeueIncomingData st)).
Proof.
  intros Hok. unfold MidiJackDequeueIncomingData.
  destruct (message_queue st) as [| m rest] eqn:Hq; [assumption |].
  destruct Hok as [Hl Hact Hids Hqu]. split; cbn; try assumption.
  rewrite Hq in Hqu. now apply Forall_cons in Hqu as [_ Hqu].
Qed.

Lemma registry_ok_GetEndpointIDAtIndex st index r st' :
  registry_ok st ->
  MidiJackGetEndpointIDAtIndex index st = Returns (r, st') -> registry_ok st'.
Proof.
  intros Hok. unfold MidiJackGetEndpointIDAtIndex.
  destruct (index <? 0); [discriminate |].
  destruct (advance _ _ _) as [itr |]; [| discriminate].
  destruct (StdList.deref itr (active_handles st)) as [h |]; [| discriminate].
  pose proof (registry_ok_subscript st h Hok) as Hs.
  destruct (subscript DeviceInfo_zero h (handle_to_device_info st)) as [info m].
  now intros [= <- <-].
Qed.

(** *** The lock is released as it was found *)

Lemma resource_lock_OpenDevice st deviceId :
  resource_lock (OpenDevice deviceId st) = resource_lock st.
Proof.
  now destruct (OpenDevice_cases st deviceId) as [[o ->] | (h & caps & o & ->)].
Qed.

Lemma resource_lock_open_range ids st :
  resource_lock (open_range ids st) = resource_lock st.
Proof.
  revert st. induction ids as [| id ids IH]; intros st; [reflexivity |].
  cbn [open_range foldl]. fold (open_range ids (OpenDevice id st)).
  now rewrite IH, resource_lock_OpenDevice.
Qed.

Lemma resource_lock_OpenAllDevices st :
  resource_lock (OpenAllDevices st) = resource_lock st.
Proof.
  unfold OpenAllDevices. destruct (midiInGetNumDevs (os_state st)) as [n o].
  now rewrite resource_lock_open_range.
Qed.

Lemma callback_lock h msg inst p1 p2 st :
  resource_lock (MidiInProc h msg inst p1 p2 st) = resource_lock st.
Proof.
  unfold MidiInProc. destruct (msg =? MIM_DATA); [| reflexivity].
  now destruct (subscript _ _ _).
Qed.

Lemma sound_RefreshDevices st st' :
  sound st -> RefreshDevices st = Returns st' -> sound st'.
Proof.
  intros [Hok Hlock] Hr.
  destruct (StdList.nodes (active_handles st)) as [| n rest] eqn:Hn.
  - rewrite (RefreshDevices_empty st Hn) in Hr. injection Hr as <-. split.
    + apply (registry_ok_fields (OpenAllDevices (lock st))); try reflexivity.
      apply registry_ok_OpenAllDevices. now apply (registry_ok_fields st).
    + cbn. rewrite resource_lock_OpenAllDevices. cbn. assumption.
  - rewrite RefreshDevices_nonempty in Hr; [discriminate | now destruct Hok |].
    now rewrite Hn.
Qed.

Lemma sound_perform c st st' :
  sound st -> perform c st = Returns st' -> sound st'.
Proof.
  intros Hs Hp. destruct c as [h msg inst p1 p2 | | | index | id |]; cbn in Hp.
  - injection Hp as <-. destruct Hs as [Hok Hlock]. split.
    + now apply registry_ok_MidiInProc.
    + now rewrite callback_lock.
  - unfold MidiJackRefreshEndpoints in Hp.
    destruct (RefreshDevices st) as [st1 | |] eqn:Hr; try discriminate.
    cbn in Hp. injection Hp as <-. now apply (sound_RefreshDevices st).
  - now injection Hp as <-.
  - destruct (MidiJackGetEndpointIDAtIndex index st) as [[r st1] | |] eqn:Hi;
      try discriminate.
    cbn in Hp. injection Hp as <-. destruct Hs as [Hok Hlock]. split.
    + now apply (registry_ok_GetEndpointIDAtIndex st index r).
    + revert Hi. unfold MidiJackGetEndpointIDAtIndex.
      destruct (index <? 0); [discriminate |].
      destruct (advance _ _ _); [| discriminate].
      destruct (StdList.deref _ _); [| discriminate].
      destruct (subscript _ _ _). now intros [= _ <-].
  - injection Hp as <-. destruct Hs as [Hok Hlock]. split.
    + now apply registry_ok_GetEndpointName.
    + unfold MidiJackGetEndpointName. now destruct (subscript _ _ _).
  - injection Hp as <-. destruct Hs as [Hok Hlock]. split.
    + now apply registry_ok_Dequeue.
    + unfold MidiJackDequeueIncomingData. now destruct (message_queue st).
Qed.

End Soundness.

(** ** Closing and opening all devices *)

Section Lifecycle.

Context {W : WinMM}.
Implicit Types st : State W.

Lemma values_nil l : StdList.nodes l = [] -> StdList.values l = [].
Proof. intros H. unfold StdList.values. now rewrite H. Qed.

(** The closing loop of [CloseAllDevices], given enough iterations. *)
Lemma close_front_spec fuel : forall st,
  (StdList.size (active_handles st) <= fuel)%nat ->
  let st' := close_front fuel st in
  StdList.nodes (active_handles st') = [] /\
  (forall h, handle_to_device_info st' !! h =
             if decide (h ∈ StdList.values (active_handles st)) then None
             else handle_to_device_info st !! h) /\
  (forall e, endpoint_id_to_handle st' !! e = None \/
             endpoint_id_to_handle st' !! e = endpoint_id_to_handle st !! e) /\
  (forall h info, h ∈ StdList.values (active_handles st) ->
                  handle_to_device_info st !! h = Some info ->
                  endpoint_id_to_handle st' !! endpointId info = None) /\
  message_queue st' = message_queue st /\
  resource_lock st' = resource_lock st.
Proof.
  assert (Hstop : forall st, StdList.nodes (active_handles st) = [] ->
            StdList.nodes (active_handles st) = [] /\
            (forall h, handle_to_device_info st !! h =
               if decide (h ∈ StdList.values (active_handles st)) then None
               else handle_to_device_info st !! h) /\
            (forall e, endpoint_id_to_handle st !! e = None \/
               endpoint_id_to_handle st !! e = endpoint_id_to_handle st !! e) /\
            (forall h info, h ∈ StdList.values (active_handles st) ->
               handle_to_device_info st !! h = Some info ->
               endpoint_id_to_handle st !! endpointId info = None) /\
            message_queue st = message_queue st /\
            resource_lock st = resource_lock st).
  { intros st Hn. pose proof (values_nil _ Hn) as Hv. rewrite Hv.
    split; [assumption |]. split.
    - intros h. destruct (decide (h ∈ [])) as [Hin |]; [| reflexivity].
      now apply not_elem_of_nil in Hin.
    - split; [now right |]. split; [| now split].
      intros h info Hin. now apply not_elem_of_nil in Hin. }
  induction fuel as [| fuel IH]; intros st Hsz; cbv zeta.
  - cbn [close_front]. apply Hstop. unfold StdList.size in Hsz.
    destruct (StdList.nodes (active_handles st)); [reflexivity | cbn in Hsz; lia].
  - cbn [close_front]. unfold StdList.empty, StdList.front.
    destruct (StdList.nodes (active_handles st)) as [| n rest] eqn:Hn.
    { now apply Hstop. }
    set (h0 := StdList.value n). set (st1 := CloseDevice h0 st).
    assert (Hv : StdList.values (active_handles st) = h0 :: map StdList.value rest).
    { unfold StdList.values. now rewrite Hn. }
    assert (Hv1 : StdList.values (active_handles st1) =
                  filter (fun v => v <> h0) (StdList.values (active_handles st))).
    { subst st1. now rewrite active_handles_CloseDevice, remove_values. }
    assert (Hsz1 : (StdList.size (active_handles st1) <= fuel)%nat).
    { rewrite size_values, Hv1, Hv, filter_cons.
      destruct (decide (h0 <> h0)) as [Hc |]; [congruence |].
      pose proof (length_filter (fun v => v <> h0) (map StdList.value rest)) as Hl.
      rewrite length_map in Hl. unfold StdList.size in Hsz. rewrite Hn in Hsz.
      cbn [length] in Hsz. lia. }
    destruct (IH st1 Hsz1) as (R1 & R2 & R3 & R4 & R5 & R6).
    assert (Hst1 : st1 = CloseDevice h0 st) by reflexivity.
    rewrite CloseDevice_state in Hst1.
    assert (Hm1 : handle_to_device_info st1 = delete h0 (handle_to_device_info st))
      by now rewrite Hst1.
    assert (He1 : endpoint_id_to_handle st1 =
                  delete (endpointId (default DeviceInfo_zero (handle_to_device_info st !! h0)))
                         (endpoint_id_to_handle st))
      by now rewrite Hst1.
    assert (Hin0 : h0 ∈ StdList.values (active_handles st)).
    { rewrite Hv. apply list_elem_of_here. }
    split; [exact R1 |]. split; [| split; [| split; [| split]]].
    + intros h. rewrite R2, Hv1, Hm1.
      destruct (decide (h = h0)) as [-> | Hne].
      * destruct (decide (h0 ∈ filter (fun v => v <> h0) _)) as [Hin |].
        -- apply list_elem_of_filter in Hin as [Hc _]. congruence.
        -- rewrite lookup_delete_eq. now destruct (decide (h0 ∈ _)).
      * rewrite lookup_delete_ne by congruence.
        destruct (decide (h ∈ filter (fun v => v <> h0) _)) as [Hin | Hnin];
          destruct (decide (h ∈ StdList.values (active_handles st))) as [Hin' | Hnin'];
          try reflexivity.
        -- apply list_elem_of_filter in Hin as [_ Hin]. contradiction.
        -- exfalso. apply Hnin. apply list_elem_of_filter. now split.
    + intros e. destruct (R3 e) as [Hr | Hr]; [now left |].
      rewrite Hr, He1. rewrite lookup_delete.
      destruct (decide (_ = e)); [now left | now right].
    + intros h info Hin Hinfo.
      destruct (decide (h = h0)) as [-> | Hne].
      * destruct (R3 (endpointId info)) as [Hr | Hr]; [assumption |].
        rewrite Hr, He1, Hinfo. cbn [default]. apply lookup_delete_eq.
      * apply (R4 h info).
        -- rewrite Hv1. apply list_elem_of_filter. now split.
        -- rewrite Hm1. now rewrite lookup_delete_ne by congruence.
    + rewrite R5. now rewrite Hst1.
    + rewrite R6. now rewrite Hst1.
Qed.

(** The loop of [OpenAllDevices] only appends to the active list. *)
Lemma open_range_spec ids : forall st,
  StdList.values (active_handles st) `prefix_of`
    StdList.values (active_handles (open_range ids st)) /\
  (StdList.size (active_handles (open_range ids st)) <=
     StdList.size (active_handles st) + length ids)%nat /\
  message_queue (open_range ids st) = message_queue st.
Proof.
  induction ids as [| id ids IH]; intros st.
  - cbn. split; [reflexivity |]. split; [lia | reflexivity].
  - cbn [open_range foldl]. fold (open_range ids (OpenDevice id st)).
    destruct (IH (OpenDevice id st)) as (P1 & P2 & P3).
    destruct (OpenDevice_cases st id) as [[o He] | (h & caps & o & He)];
      rewrite He in P1, P2, P3; cbn [active_handles set_os message_queue] in *.
    + rewrite He. split; [exact P1 |]. split; [cbn [length]; lia | exact P3].
    + rewrite He. split; [| split].
      * etransitivity; [| exact P1]. rewrite push_back_values. now apply prefix_app_r.
      * rewrite !size_values in *. rewrite push_back_values, length_app in P2.
        cbn [length] in *. lia.
      * exact P3.
Qed.

End Lifecycle.

(** X11. Every call of the exported surface, and every event delivered
    to the callback, that returns from a sound state leaves a sound
    state: the nodes of the active list are distinct, every active handle
    has a [DeviceInfo] holding the handle and the endpoint identifier
    derived from it, all endpoint identifiers and queued messages are
    within their types, and the lock is released. *)
Theorem calls_keep_sound `{W : WinMM} (cs : list call) (st st' : State W) :
  sound st -> perform_all cs st = Returns st' -> sound st'.
Proof.
  revert st. induction cs as [| c cs IH]; intros st Hs Hp.
  - cbn in Hp. now injection Hp as <-.
  - cbn [perform_all] in Hp.
    destruct (perform c st) as [st1 | |] eqn:Hc; try discriminate.
    apply (IH st1); [| assumption]. now apply (sound_perform c st).
Qed.

(** X12. [CloseAllDevices] leaves no active handle; it removes the
    [DeviceInfo] of every handle that was active and keeps the others;
    it adds or changes no entry of the endpoint map and removes the entry
    of the endpoint identifier of every device that was active; the queue
    and the lock are as before. *)
Theorem close_all_unregisters_all `{W : WinMM} (st : State W) :
  let st' := CloseAllDevices st in
  StdList.nodes (active_handles st') = [] /\
  (forall h, handle_to_device_info st' !! h =
             if decide (h ∈ StdList.values (active_handles st)) then None
             else handle_to_device_info st !! h) /\
  (forall e, endpoint_id_to_handle st' !! e = None \/
             endpoint_id_to_handle st' !! e = endpoint_id_to_handle st !! e) /\
  (forall h info, h ∈ StdList.values (active_handles st) ->
                  handle_to_device_info st !! h = Some info ->
                  endpoint_id_to_handle st' !! endpointId info = None) /\
  message_queue st' = message_queue st /\
  resource_lock st' = resource_lock st.
Proof.
  cbv zeta. unfold CloseAllDevices.
  destruct (close_front_spec (StdList.size (active_handles (lock st))) (lock st)
              (le_n _)) as (R1 & R2 & R3 & R4 & R5 & R6).
  cbn [unlock set_lock active_handles handle_to_device_info endpoint_id_to_handle
       message_queue resource_lock] in *.
  repeat split; try assumption.
  cbn [lock set_lock resource_lock] in R6. now rewrite R6.
Qed.

(** X13. [OpenAllDevices] only appends to the active list, at most one
    handle per device the system reports; the handles that were active
    keep their positions; the queue and the lock are as before, and a
    registry that was in order stays in order. *)
Theorem open_all_appends `{W : WinMM} (st : State W) :
  let st' := OpenAllDevices st in
  StdList.values (active_handles st) `prefix_of` StdList.values (active_handles st') /\
  (StdList.size (active_handles st') <=
     StdList.size (active_handles st) +
     Z.to_nat (u32 (fst (midiInGetNumDevs (os_state st)))))%nat /\
  message_queue st' = message_queue st /\
  resource_lock st' = resource_lock st /\
  (registry_ok st -> registry_ok st').
Proof.
  cbv zeta. split; [| split; [| split; [| split]]].
  4: apply resource_lock_OpenAllDevices.
  4: apply registry_ok_OpenAllDevices.
  all: unfold OpenAllDevices;
    destruct (midiInGetNumDevs (os_state st)) as [n o]; cbn [fst];
    destruct (open_range_spec (seqZ 0 (u32 n)) (set_os o st)) as (P1 & P2 & P3).
  - exact P1.
  - rewrite length_seqZ in P2. exact P2.
  - exact P3.
Qed.

(** X14. With the nodes of the active list distinct, [RefreshEndpoints]
    returns exactly when no handle is active: it is then
    [OpenAllDevices] under the lock, and the count returned is that of
    [CountEndpoints] afterwards; with an active handle it is undefined. *)
Theorem refresh_returns_iff_none_active `{W : WinMM} (st : State W) :
  StdList_wf (active_handles st) ->
  (StdList.nodes (active_handles st) = [] ->
   MidiJackRefreshEndpoints st =
     Returns (MidiJackCountEndpoints (unlock (OpenAllDevices (lock st))))) /\
  (StdList.nodes (active_handles st) <> [] ->
   MidiJackRefreshEndpoints st = Undefined).
Proof.
  intros Hwf. unfold MidiJackRefreshEndpoints. split; intros Hn.
  - now rewrite (RefreshDevices_empty st Hn).
  - now rewrite (RefreshDevices_nonempty st Hwf Hn).
Qed.

(** X15. A device that [OpenDevice] has just opened is the last of the
    enumeration: the identifier at the index that was the count before
    is the low 32 bits of its handle, and reading it changes nothing. *)
Theorem opened_device_is_enumerated_last `{W : WinMM} (st : State W)
    (deviceId h : Z) (caps : MIDIINCAPS) (o' : OS) :
  open_succeeds deviceId (os_state st) h caps o' ->
  StdList_wf (active_handles st) ->
  let st1 := OpenDevice deviceId st in
  MidiJackGetEndpointIDAtIndex (Z.of_nat (StdList.size (active_handles st))) st1 =
    Returns (Z.land h 0xFFFFFFFF, st1).
Proof.
  intros Hok Hwf st1.
  pose proof (OpenDevice_success st deviceId h caps o' Hok) as Hst1. fold st1 in Hst1.
  assert (Hwf1 : StdList_wf (active_handles st1)).
  { rewrite Hst1. cbn [active_handles]. now apply StdList_wf_push_back. }
  assert (Hh : StdList.values (active_handles st1) !!
                 Z.to_nat (Z.of_nat (StdList.size (active_handles st))) = Some h).
  { rewrite Nat2Z.id, Hst1. cbn [active_handles].
    rewrite push_back_values, size_values.
    rewrite lookup_app_r by lia. now rewrite Nat.sub_diag. }
  rewrite (GetEndpointIDAtIndex_at st1 _ h Hwf1 (Nat2Z.is_nonneg _) Hh).
  assert (Hinfo : handle_to_device_info st1 !! h =
                  Some {| handle := h; deviceId := deviceId;
                          endpointId := u32 (Z.land h 0xFFFFFFFF); deviceCaps := caps |}).
  { rewrite Hst1. cbn. apply lookup_insert_eq. }
  rewrite (subscript_present _ _ _ _ Hinfo). cbn [fst snd endpointId].
  rewrite (set_info_same st1 _ eq_refl). f_equal. f_equal.
  unfold u32. change 0xFFFFFFFF with (Z.ones 32).
  rewrite Z.land_ones by lia. apply Z.mod_mod. lia.
Qed.

(** ** The console client *)

Section ClientLoops.

Context {W : WinMM}.
Implicit Types st : State W.

Lemma GetDeviceName_ext st st0 h :
  handle_to_device_info st = handle_to_device_info st0 ->
  GetDeviceName h st = GetDeviceName h st0.
Proof. intros Hm. unfold GetDeviceName. now rewrite Hm. Qed.

(** The name lookup through the endpoint map, and the state it leaves. *)
Lemma GetEndpointName_spec st id :
  let r := MidiJackGetEndpointName id st in
  fst r = c_str (GetDeviceName (default NULL (endpoint_id_to_handle st !! id)) st) /\
  handle_to_device_info (snd r) = handle_to_device_info st /\
  active_handles (snd r) = active_handles st /\
  message_queue (snd r) = message_queue st /\
  (forall id', default NULL (endpoint_id_to_handle (snd r) !! id') =
               default NULL (endpoint_id_to_handle st !! id')).
Proof.
  cbv zeta. unfold MidiJackGetEndpointName, subscript.
  destruct (endpoint_id_to_handle st !! id) as [h |] eqn:He; cbn.
  - repeat split.
  - repeat split. intros id'. destruct (decide (id' = id)) as [-> | Hne].
    + now rewrite lookup_insert_eq, He.
    + now rewrite lookup_insert_ne by congruence.
Qed.

Lemma drain_spec q : forall fuel st,
  message_queue st = q -> (length q < fuel)%nat ->
  Client.drain fuel st = Returns (set_queue (Client.after_zero q) st).
Proof.
  induction q as [| m rest IH]; intros fuel st Hq Hf;
    (destruct fuel as [| fuel]; [cbn in Hf; lia |]); cbn [Client.drain].
  - rewrite (Dequeue_empty st Hq). cbn. now rewrite (set_queue_same st [] Hq).
  - rewrite (Dequeue_front st m rest Hq). cbn [Client.after_zero].
    destruct (MidiMessage.Encode64Bit m =? 0); [reflexivity |].
    rewrite (IH fuel (set_queue rest st) eq_refl) by (cbn in Hf; lia).
    now destruct st.
Qed.

Lemma frame_spec (st0 : State W) q : forall fuel st,
  message_queue st = q -> (length q < fuel)%nat ->
  Forall MidiMessage.in_range q ->
  handle_to_device_info st = handle_to_device_info st0 ->
  (forall id, default NULL (endpoint_id_to_handle st !! id) =
              default NULL (endpoint_id_to_handle st0 !! id)) ->
  exists st',
    Client.frame fuel st =
      Returns (map (Client.log_of st0) (Client.before_zero q), st') /\
    message_queue st' = Client.after_zero q /\
    handle_to_device_info st' = handle_to_device_info st0 /\
    active_handles st' = active_handles st /\
    (forall id, default NULL (endpoint_id_to_handle st' !! id) =
                default NULL (endpoint_id_to_handle st0 !! id)).
Proof.
  induction q as [| m rest IH]; intros fuel st Hq Hf Hr Hm He;
    (destruct fuel as [| fuel]; [cbn in Hf; lia |]); cbn [Client.frame].
  - rewrite (Dequeue_empty st Hq). cbn. exists st. now repeat split.
  - rewrite (Dequeue_front st m rest Hq).
    cbn [Client.before_zero Client.after_zero].
    destruct (MidiMessage.Encode64Bit m =? 0).
    { exists (set_queue rest st). now repeat split. }
    apply Forall_cons in Hr as [Hrm Hr].
    pose proof (decode_Encode64Bit m Hrm) as D. unfold decode in D.
    injection D as Ds Dst Dd1 Dd2. rewrite Ds, Dst, Dd1, Dd2.
    destruct (GetEndpointName_spec (set_queue rest st) (MidiMessage.source_ m))
      as (N1 & N2 & N3 & N4 & N5).
    destruct (MidiJackGetEndpointName (MidiMessage.source_ m) (set_queue rest st))
      as [name st2]. cbn [fst snd] in *.
    destruct (IH fuel st2) as (st' & F1 & F2 & F3 & F4 & F5).
    + exact N4.
    + cbn in Hf. lia.
    + exact Hr.
    + now rewrite N2.
    + intros id. now rewrite N5.
    + exists st'. rewrite F1. cbn [map]. split; [| now rewrite F4, N3].
      f_equal. f_equal. f_equal. unfold Client.log_of. f_equal.
      rewrite N1. cbn [endpoint_id_to_handle set_queue].
      destruct (GetEndpointName_spec st0 (MidiMessage.source_ m)) as (M1 & _).
      rewrite M1, He. f_equal. now apply GetDeviceName_ext.
Qed.

Lemma list_endpoints_spec st (indices : list Z) :
  registry_ok st ->
  (forall h, h ∈ StdList.values (active_handles st) ->
             endpoint_id_to_handle st !! endpoint_of h = Some h) ->
  Forall (fun i => 0 <= i < Z.of_nat (StdList.size (active_handles st))) indices ->
  Client.list_endpoints indices st =
    Returns (map (Client.endpoint_at st) indices, st).
Proof.
  intros Hok Hep. induction indices as [| i rest IH]; intros Hin; [reflexivity |].
  apply Forall_cons in Hin as [Hi Hin]. cbn [Client.list_endpoints map].
  destruct (StdList.values (active_handles st) !! Z.to_nat i) as [h |] eqn:Hh.
  2:{ apply lookup_ge_None in Hh. rewrite <- size_values in Hh. lia. }
  assert (Hact : h ∈ StdList.values (active_handles st)).
  { apply list_elem_of_lookup. eauto. }
  destruct (ok_active st Hok h Hact) as (info & Hinfo & _ & Hid).
  rewrite (GetEndpointIDAtIndex_at st i h (ok_list st Hok) ltac:(lia) Hh).
  rewrite (subscript_present _ _ _ _ Hinfo). cbn [fst snd].
  rewrite (set_info_same st _ eq_refl), Hid.
  rewrite (GetEndpointName_registered st _ h (Hep h Hact)).
  rewrite (IH Hin). unfold Client.endpoint_at at 2. now rewrite Hh.
Qed.

End ClientLoops.

(** X16. The first loop of the client changes nothing but the queue,
    from which it discards every message up to and including the first
    one that packs to 0: it opens no device and refreshes no endpoint. *)
Theorem client_drain_discards_up_to_zero `{W : WinMM} (st : State W) :
  Client.drain_all st =
    Returns (set_queue (Client.after_zero (message_queue st)) st).
Proof. unfold Client.drain_all. apply drain_spec; [reflexivity | lia]. Qed.

(** X17. One frame of the client, on a queue of messages whose fields
    are within their types, logs every message before the first one that
    packs to 0, with its four fields and the name its source had when the
    frame began; it leaves in the queue the messages after that one, and
    leaves the handle map and the active handles as they were. *)
Theorem client_frame_logs_up_to_zero `{W : WinMM} (st : State W) :
  Forall MidiMessage.in_range (message_queue st) ->
  exists st',
    Client.poll st =
      Returns (map (Client.log_of st) (Client.before_zero (message_queue st)), st') /\
    message_queue st' = Client.after_zero (message_queue st) /\
    handle_to_device_info st' = handle_to_device_info st /\
    active_handles st' = active_handles st.
Proof.
  intros Hr. unfold Client.poll.
  destruct (frame_spec st (message_queue st) (S (length (message_queue st))) st)
    as (st' & F1 & F2 & F3 & F4 & _); try reflexivity; try assumption; [lia |].
  exists st'. now repeat split.
Qed.

(** X18. When the registry is in order, every active handle is the one
    its endpoint identifier is mapped to, and the count fits an [int],
    the listing loop of the client prints one line per active handle, in
    the order of opening, with the position, the low 32 bits of the
    handle and the C string of the device name (the name narrowed to
    bytes, up to its first null byte), and leaves the state as it was. *)
Theorem client_lists_active_devices `{W : WinMM} (st : State W) :
  registry_ok st ->
  (forall h, h ∈ StdList.values (active_handles st) ->
             endpoint_id_to_handle st !! endpoint_of h = Some h) ->
  Z.of_nat (StdList.size (active_handles st)) < 2 ^ 31 ->
  Client.enumerate st =
    Returns (map (Client.endpoint_at st)
                 (seqZ 0 (Z.of_nat (StdList.size (active_handles st)))), st).
Proof.
  intros Hok Hep Hsz. unfold Client.enumerate, MidiJackCountEndpoints.
  rewrite to_int_small by lia.
  apply list_endpoints_spec; try assumption.
  apply Forall_forall. intros i Hi. apply elem_of_seqZ in Hi. lia.
Qed.

(** ** Formatting *)

Section Formatting.

Lemma length_hex_digits n : forall x, length (hex_digits n x) = n.
Proof.
  induction n as [| n IH]; intros x; [reflexivity |].
  cbn [hex_digits]. rewrite length_app, IH. cbn. lia.
Qed.

Lemma hex_digits_zero n : hex_digits n 0 = repeat "0"%char n.
Proof.
  induction n as [| n IH]; [reflexivity |].
  cbn [hex_digits]. change (0 / 16) with 0. rewrite IH.
  change [hex_digit (0 mod 16)] with ["0"%char]. symmetry. apply repeat_cons.
Qed.

Lemma strip_zeros_cons (c c' : ascii) (l : list ascii) :
  strip_zeros (c :: c' :: l) =
    if Ascii.eqb c "0" then strip_zeros (c' :: l) else c :: c' :: l.
Proof. reflexivity. Qed.

Lemma strip_zeros_length (l : list ascii) :
  l <> [] -> (1 <= length (strip_zeros l) <= length l)%nat.
Proof.
  induction l as [| c l IH]; [congruence |]. intros _.
  destruct l as [| c' l']; [cbn; lia |].
  rewrite strip_zeros_cons. destruct (Ascii.eqb c "0").
  - assert (c' :: l' <> []) as Hne by discriminate.
    specialize (IH Hne). cbn [length] in *. lia.
  - cbn [length]. lia.
Qed.

Lemma strip_zeros_leading (n : nat) (l : list ascii) :
  l <> [] -> strip_zeros (repeat "0"%char n ++ l) = strip_zeros l.
Proof.
  intros Hne. induction n as [| n IH]; [reflexivity |].
  cbn [repeat app]. destruct (repeat "0"%char n ++ l) as [| c r] eqn:Hr.
  - apply app_eq_nil in Hr as [_ Hr]. contradiction.
  - rewrite strip_zeros_cons. cbn. exact IH.
Qed.

Lemma length_format_X (x : Z) : (1 <= length (format_X x) <= 8)%nat.
Proof.
  unfold format_X.
  pose proof (strip_zeros_length (hex_digits 8 (u32 x))) as H.
  rewrite length_hex_digits in H. apply H.
  intros Hn. apply (f_equal (@length ascii)) in Hn.
  rewrite length_hex_digits in Hn. discriminate.
Qed.

(** A byte prints in two characters. *)
Lemma length_format_02X (x : Z) :
  0 <= x < 2 ^ 8 -> length (format_02X x) = 2%nat.
Proof.
  intros Hx. unfold format_02X, format_X. rewrite (u32_small x) by lia.
  assert (Hd : hex_digits 8 x =
               repeat "0"%char 6 ++ [hex_digit (x / 16 mod 16); hex_digit (x mod 16)]).
  { change (hex_digits 8 x) with
      ((hex_digits 6 (x / 16 / 16) ++ [hex_digit (x / 16 mod 16)]) ++
       [hex_digit (x mod 16)]).
    replace (x / 16 / 16) with 0.
    - rewrite hex_digits_zero, <- app_assoc. reflexivity.
    - rewrite Z.div_div by lia. symmetry. apply Z.div_small. lia. }
  rewrite Hd, strip_zeros_leading by discriminate.
  rewrite strip_zeros_cons. destruct (Ascii.eqb _ "0"); reflexivity.
Qed.

Lemma length_string_of_list_ascii (l : list ascii) :
  String.length (string_of_list_ascii l) = length l.
Proof. induction l as [| c l IH]; [reflexivity |]. cbn. now rewrite IH. Qed.

End Formatting.

(** X19. The text of a message whose fields are within their types is
    never cut by the buffer of 256 characters: it has 11 characters more
    than the hexadecimal digits of the endpoint identifier, between 12
    and 19 in all. *)
Theorem ToString_length (m : MidiMessage.t) :
  MidiMessage.in_range m ->
  String.length (ToString m) =
    (11 + length (format_X (MidiMessage.source_ m)))%nat /\
  (12 <= String.length (ToString m) <= 19)%nat.
Proof.
  intros (Hs & Hst & Hd1 & Hd2).
  pose proof (length_format_X (MidiMessage.source_ m)) as HX.
  assert (Hl : String.length (ToString m) =
               (11 + length (format_X (MidiMessage.source_ m)))%nat).
  { unfold ToString. rewrite length_string_of_list_ascii.
    rewrite take_ge.
    - rewrite !length_app, !length_format_02X by assumption. cbn [length]. lia.
    - rewrite !length_app, !length_format_02X by assumption. cbn [length]. lia. }
  split; [exact Hl | lia].
Qed.

(** ** Further instances on the scripted operating system *)

(** The packed value of a note-on from the endpoint [0xDEADBEEF]. *)
Lemma Encode64Bit_below_2_56_witness :
  0 <= MidiMessage.Encode64Bit (MidiMessage.Build 0xDEADBEEF 0x90 0x3C 0x7F) < 2 ^ 56.
Proof.
  apply (Encode64Bit_below_2_56 (MidiMessage.Build 0xDEADBEEF 0x90 0x3C 0x7F)).
  unfold MidiMessage.in_range. cbn. lia.
Defined.

(** A message built from a raw word is the message of its three bytes. *)
Lemma Encode64Bit_injective_witness :
  MidiMessage.make 100 0x7F3C90 = MidiMessage.Build 100 0x90 0x3C 0x7F.
Proof.
  apply (Encode64Bit_injective (MidiMessage.make 100 0x7F3C90)
           (MidiMessage.Build 100 0x90 0x3C 0x7F)).
  - apply make_in_range. lia.
  - unfold MidiMessage.in_range. cbn. lia.
  - vm_compute. reflexivity.
Defined.

(** A note-on from the endpoint 0 does not pack to 0. *)
Lemma Encode64Bit_zero_iff_witness :
  MidiMessage.Encode64Bit (MidiMessage.Build 0 0x90 0x3C 0x7F) = 0 <->
  MidiMessage.Build 0 0x90 0x3C 0x7F = MidiMessage.Build 0 0 0 0.
Proof.
  apply (Encode64Bit_zero_iff (MidiMessage.Build 0 0x90 0x3C 0x7F)).
  unfold MidiMessage.in_range. cbn. lia.
Defined.

(** The top byte [0xAB] of the raw word is dropped. *)
Lemma Encode64Bit_of_raw_witness :
  MidiMessage.Encode64Bit (MidiMessage.make 100 0xAB7F3C90) =
    100 + (0xAB7F3C90 mod 2 ^ 24) * 2 ^ 32.
Proof. apply (Encode64Bit_of_raw 100 0xAB7F3C90). lia. Defined.

(** A note-on of the first device, dequeued after the device is closed. *)
Lemma message_outlives_its_device_witness :
  let st1 := MidiInProc 100 MIM_DATA 0 0x7F3C90 0 Scenario.plugged in
  let st2 := CloseDevice 100 st1 in
  let d := MidiJackDequeueIncomingData st2 in
  let n := MidiJackGetEndpointName (decode_source (fst d)) (snd d) in
  fst d = MidiMessage.Encode64Bit (MidiMessage.make 100 (u32 0x7F3C90)) /\
  decode_source (fst d) = 100 /\
  fst n = "unknown"%string.
Proof.
  refine (@message_outlives_its_device Script.winmm Scenario.plugged 100 0 0x7F3C90 0
            {| handle := 100; deviceId := 0; endpointId := 100;
               deviceCaps := Script.caps_of (Script.good 100 [80; 105; 97; 110; 111; 0; 33]) |}
            eq_refl _ eq_refl eq_refl).
  cbn. lia.
Defined.

Lemma plugged_list_wf : StdList_wf (active_handles Scenario.plugged).
Proof. apply StdList_wf_OpenAllDevices, StdList_wf_new. Defined.

Lemma plugged_registry_ok : registry_ok Scenario.plugged.
Proof. apply registry_ok_OpenAllDevices, registry_ok_initial. Defined.

(** The second of the two open devices. *)
Lemma id_at_index_in_range_witness :
  MidiJackGetEndpointIDAtIndex 1 Scenario.plugged = Returns (200, Scenario.plugged).
Proof.
  refine (@id_at_index_in_range Script.winmm Scenario.plugged 1 200
            {| handle := 200; deviceId := 1; endpointId := 200;
               deviceCaps := Script.caps_of (Script.good 200 [83; 121; 110; 116; 104]) |}
            plugged_list_wf _ eq_refl eq_refl).
  lia.
Defined.

(** The index 2 with two open devices, and the index -1. *)
Lemma id_at_index_out_of_range_witness :
  MidiJackGetEndpointIDAtIndex 2 Scenario.plugged = Undefined /\
  MidiJackGetEndpointIDAtIndex (-1) Scenario.plugged = Undefined.
Proof.
  split.
  - apply (@id_at_index_out_of_range Script.winmm Scenario.plugged 2 plugged_list_wf).
    right. change (Z.of_nat (StdList.size (active_handles Scenario.plugged))) with 2.
    lia.
  - apply (@id_at_index_out_of_range Script.winmm Scenario.plugged (-1) plugged_list_wf).
    left. lia.
Defined.

(** The state after the calls of a host on a freshly loaded library. *)
Lemma calls_keep_sound_witness : sound Session.after_calls.
Proof.
  apply (@calls_keep_sound Script.winmm Session.calls Scenario.unplugged
           Session.after_calls).
  - split; [apply registry_ok_initial | reflexivity].
  - vm_compute. reflexivity.
Defined.

(** A first and a second refresh. *)
Lemma refresh_returns_iff_none_active_witness :
  MidiJackRefreshEndpoints Scenario.unplugged =
    Returns (MidiJackCountEndpoints (unlock (OpenAllDevices (lock Scenario.unplugged)))) /\
  MidiJackRefreshEndpoints Scenario.plugged = Undefined.
Proof.
  split.
  - apply (@refresh_returns_iff_none_active Script.winmm Scenario.unplugged
             StdList_wf_new). reflexivity.
  - apply (@refresh_returns_iff_none_active Script.winmm Scenario.plugged
             plugged_list_wf). vm_compute. discriminate.
Defined.

(** The first device, once open, is at index 0 with identifier 100. *)
Lemma opened_device_is_enumerated_last_witness :
  let st1 := OpenDevice 0 Scenario.unplugged in
  MidiJackGetEndpointIDAtIndex (Z.of_nat (StdList.size (active_handles Scenario.unplugged)))
    st1 = Returns (Z.land 100 0xFFFFFFFF, st1).
Proof.
  refine (@opened_device_is_enumerated_last Script.winmm Scenario.unplugged 0 100
            (Script.caps_of (Script.good 100 [80; 105; 97; 110; 111; 0; 33]))
            (snd (Script.open 0 Scenario.two_devices)) _ StdList_wf_new).
  exists (snd (Script.open 0 Scenario.two_devices)),
         (snd (Script.open 0 Scenario.two_devices)).
  split; [reflexivity |]. split; reflexivity.
Defined.

(** A frame over three messages, the second of which packs to 0: the
    first is logged, the third stays in the queue. *)
Lemma client_frame_logs_up_to_zero_witness :
  exists st',
    Client.poll Session.busy =
      Returns ([{| Client.log_source := 100; Client.log_name := "Piano";
                   Client.log_status := 0x90; Client.log_data1 := 0x3C;
                   Client.log_data2 := 0x7F |}], st') /\
    message_queue st' = [MidiMessage.make 200 0x003C80] /\
    handle_to_device_info st' = handle_to_device_info Session.busy /\
    active_handles st' = active_handles Session.busy.
Proof.
  refine (@client_frame_logs_up_to_zero Script.winmm Session.busy _).
  change (message_queue Session.busy) with
    [MidiMessage.make 100 (u32 0x7F3C90); MidiMessage.make 0 (u32 0);
     MidiMessage.make 200 (u32 0x003C80)].
  repeat (apply Forall_cons; split; [apply make_in_range; lia |]).
  apply Forall_nil_2.
Defined.

(** The listing of the two open devices, and that of the device named
    ["A"; U+0100; "B"], whose name is printed up to its null byte. *)
Lemma client_lists_active_devices_witness :
  Client.enumerate Scenario.plugged =
    Returns ([{| Client.ep_index := 0; Client.ep_id := 100; Client.ep_name := "Piano" |};
              {| Client.ep_index := 1; Client.ep_id := 200; Client.ep_name := "Synth" |}],
             Scenario.plugged) /\
  Client.enumerate Edge.accented =
    Returns ([{| Client.ep_index := 0; Client.ep_id := 300; Client.ep_name := "A" |}],
             Edge.accented).
Proof.
  split.
  - refine (@client_lists_active_devices Script.winmm Scenario.plugged
              plugged_registry_ok _ _).
    + intros h Hin.
      change (StdList.values (active_handles Scenario.plugged)) with [100; 200] in Hin.
      apply elem_of_cons in Hin as [-> | Hin]; [reflexivity |].
      apply list_elem_of_singleton in Hin as ->. reflexivity.
    + change (Z.of_nat (StdList.size (active_handles Scenario.plugged))) with 2. lia.
  - refine (@client_lists_active_devices Script.winmm Edge.accented _ _ _).
    + apply registry_ok_OpenAllDevices, registry_ok_initial.
    + intros h Hin.
      change (StdList.values (active_handles Edge.accented)) with [300] in Hin.
      apply list_elem_of_singleton in Hin as ->. reflexivity.
    + change (Z.of_nat (StdList.size (active_handles Edge.accented))) with 1. lia.
Defined.

(** The text of a note-on from the endpoint [0xDEADBEEF]. *)
Lemma ToString_length_witness :
  ToString (MidiMessage.Build 0xDEADBEEF 0x90 0x3C 0x7F) = "(DEADBEEF) 90 3C 7F"%string /\
  String.length (ToString (MidiMessage.Build 0xDEADBEEF 0x90 0x3C 0x7F)) = 19%nat /\
  (12 <= String.length (ToString (MidiMessage.Build 0xDEADBEEF 0x90 0x3C 0x7F)) <= 19)%nat.
Proof.
  split; [reflexivity |].
  refine (ToString_length (MidiMessage.Build 0xDEADBEEF 0x90 0x3C 0x7F) _).
  unfold MidiMessage.in_range. cbn. lia.
Defined.
